(** * Portfolio front-end controllers (src/js/main.js): a shallow embedding

    Each controller class of [main.js] is embedded as a module holding a
    record for the fields of the object together with the part of the
    browser it touches (storage, attributes, classes, timers), and one
    function per method.  Handlers registered with [addEventListener] are
    functions from an event and a state to the next state; the browser is
    the caller that folds them over a trace of events. *)

From Stdlib Require Import ZArith String Ascii Lia.
From Stdlib Require QArith.
From stdpp Require Import gmap strings list.

Local Open Scope string_scope.

(** JavaScript truthiness of a value that is either [null] or a string. *)
Definition truthy (v : option string) : bool :=
  match v with
  | Some s => negb (String.eqb s "")
  | None => false
  end.

(** [a || b] where [a] is [null] or a string and [b] is a string. *)
Definition js_or (a : option string) (b : string) : string :=
  match a with
  | Some s => if String.eqb s "" then b else s
  | None => b
  end.

(** ** CONFIG *)
Module CONFIG.
Definition BREAKPOINTS_mobile : Z := 480.
Definition BREAKPOINTS_tablet : Z := 768.
Definition BREAKPOINTS_desktop : Z := 1024.
Definition debounceDelay : Z := 100.
Definition scrollThrottle : Z := 16.
Definition animationDelay : Z := 200.
Definition typingSpeed : Z := 100.
Definition typingDeleteSpeed : Z := 50.
Definition typingPause : Z := 2000.
End CONFIG.

(** ** ThemeManager *)
Module ThemeManager.

(** The manager object, the two things it writes (the [data-theme]
    attribute of the root element and the [portfolio-theme] key of
    [localStorage]), the toggle buttons as [updateIcon] leaves them and the
    announcements appended for screen readers. *)
Record state := mkState {
  currentTheme : string;
  dataTheme : option string;
  storage : option string;
  iconClass : string;
  ariaPressed : bool;
  buttonTitle : string;
  announcements : list string
}.

Definition getStoredTheme (st : state) : option string := storage st.

Definition getSystemTheme (prefersDark : bool) : string :=
  if prefersDark then "dark" else "light".

Definition updateIcon (st : state) : state :=
  let dark := String.eqb (currentTheme st) "dark" in
  mkState (currentTheme st) (dataTheme st) (storage st)
          (if dark then "fas fa-sun" else "fas fa-moon")
          dark
          ("Switch to " ++ (if dark then "light" else "dark") ++ " theme")
          (announcements st).

Definition announceThemeChange (theme : string) (st : state) : state :=
  mkState (currentTheme st) (dataTheme st) (storage st)
          (iconClass st) (ariaPressed st) (buttonTitle st)
          (announcements st ++ ["Switched to " ++ theme ++ " theme"]).

Definition setTheme (theme : string) (st : state) : state :=
  let st1 := mkState theme (Some theme) (Some theme)
                     (iconClass st) (ariaPressed st) (buttonTitle st)
                     (announcements st) in
  announceThemeChange theme (updateIcon st1).

Definition toggleTheme (st : state) : state :=
  let newTheme := if String.eqb (currentTheme st) "dark" then "light" else "dark" in
  setTheme newTheme st.

(** The listener registered on the [prefers-color-scheme] media query. *)
Definition onSystemChange (matches : bool) (st : state) : state :=
  if negb (truthy (getStoredTheme st))
  then setTheme (if matches then "dark" else "light") st
  else st.

(** [new ThemeManager()] on a freshly loaded document: [stored] is what
    [localStorage] holds under the key, [prefersDark] the OS signal. *)
Definition construct (stored : option string) (prefersDark : bool) : state :=
  let cur := js_or stored (getSystemTheme prefersDark) in
  let st0 := mkState cur None stored "" false "" [] in
  (* init: setTheme, bindEvents, updateIcon *)
  updateIcon (setTheme (currentTheme st0) st0).

(** What can happen to a constructed manager. *)
Inductive event :=
| ToggleClicked
| SystemChanged (matches : bool).

Definition handle (st : state) (e : event) : state :=
  match e with
  | ToggleClicked => toggleTheme st
  | SystemChanged m => onSystemChange m st
  end.

Definition run (evs : list event) (st : state) : state := foldl handle st evs.


(** The invariant of a constructed manager: the three writes of
    [setTheme] agree and the stored value is truthy. *)
Definition agreed (st : state) : Prop :=
  currentTheme st ≠ "" ∧
  dataTheme st = Some (currentTheme st) ∧
  storage st = Some (currentTheme st).

End ThemeManager.

(** ** Utils *)
Module Utils.

Inductive viewportSize := mobile | tablet | desktop | large.

(** [getViewportSize] at a window of inner width [width]. *)
Definition getViewportSize (width : Z) : viewportSize :=
  if (width <=? CONFIG.BREAKPOINTS_mobile)%Z then mobile
  else if (width <=? CONFIG.BREAKPOINTS_tablet)%Z then tablet
  else if (width <=? CONFIG.BREAKPOINTS_desktop)%Z then desktop
  else large.

Definition viewportSize_eqb (a b : viewportSize) : bool :=
  match a, b with
  | mobile, mobile | tablet, tablet | desktop, desktop | large, large => true
  | _, _ => false
  end.

End Utils.

(** ** NavigationManager: the mobile menu *)
Module NavigationManager.

Inductive focusTarget := focusElsewhere | focusMenu | focusToggle.

(** Where a click landed, as the document listener tests it with
    [navMenu.contains] and [navToggle.contains]. *)
Inductive clickTarget := inMenu | inToggle | outside.

(** [navPresent]: both [#nav-toggle] and [#nav-menu] were found, the
    condition under which [bindEvents] registers the menu listeners.  The
    other fields are [isMenuOpen] and what [toggleMobileMenu] writes. *)
Record state := mkState {
  navPresent : bool;
  isMenuOpen : bool;
  menuActive : bool;
  toggleActive : bool;
  ariaExpanded : bool;
  ariaHidden : bool;
  bodyOverflowHidden : bool;
  focus : focusTarget
}.

Definition toggleMobileMenu (st : state) : state :=
  let o := negb (isMenuOpen st) in
  mkState (navPresent st) o o o o (negb o) o
          (if o then focusMenu else focusToggle).

Definition closeMobileMenu (st : state) : state :=
  if isMenuOpen st then toggleMobileMenu st else st.

(** Listeners of [bindEvents]. *)
Definition onToggleClick (st : state) : state :=
  if navPresent st then toggleMobileMenu st else st.

Definition onToggleKeydown (key : string) (st : state) : state :=
  if navPresent st
  then if String.eqb key "Enter" || String.eqb key " "
       then toggleMobileMenu st else st
  else st.

Definition onDocumentKeydown (key : string) (st : state) : state :=
  if navPresent st
  then if String.eqb key "Escape" && isMenuOpen st
       then closeMobileMenu st else st
  else st.

Definition onDocumentClick (target : clickTarget) (st : state) : state :=
  if navPresent st
  then
    let inMenuB := match target with inMenu => true | _ => false end in
    let inToggleB := match target with inToggle => true | _ => false end in
    if isMenuOpen st && negb inMenuB && negb inToggleB
    then closeMobileMenu st else st
  else st.

(** The debounced resize handler, run with the inner width it finds. *)
Definition handleResize (width : Z) (st : state) : state :=
  if negb (Utils.viewportSize_eqb (Utils.getViewportSize width) Utils.mobile)
     && isMenuOpen st
  then closeMobileMenu st else st.

(** A click is dispatched to the toggle's listener when it lands on the
    toggle and then bubbles to the document's listener. *)
Definition click (target : clickTarget) (st : state) : state :=
  let st1 := match target with inToggle => onToggleClick st | _ => st end in
  onDocumentClick target st1.

(** [new NavigationManager()]. *)
Definition construct (present : bool) : state :=
  mkState present false false false false true false focusElsewhere.

End NavigationManager.

(** ** TypingAnimation *)
Module TypingAnimation.

(** The object's fields, the text of the target element and the delay of
    the pending [setTimeout] ([None]: no timer is pending). *)
Record state := mkState {
  texts : list string;
  currentTextIndex : nat;
  currentCharIndex : Z;
  isDeleting : bool;
  isPaused : bool;
  textContent : string;
  pending : option Z
}.

Definition defaultTexts : list string :=
  [ "Java Full Stack Enthusiast"; "Aspiring Software Engineer";
    "Exploring Web Technologies"; "Problem Solver"; "Tech Innovation Lover" ].

(** [s.substring(0, n)]: a negative end is read as 0, one past the end as
    the length. *)
Definition substring0 (s : string) (n : Z) : string :=
  String.substring 0 (Z.to_nat n) s.

(** One call of [type()].  When [texts[currentTextIndex]] is undefined the
    call throws at [currentText.substring], after the index update and
    before anything is displayed or scheduled. *)
Definition type (st : state) : state :=
  let idx := if isDeleting st then (currentCharIndex st - 1)%Z
             else (currentCharIndex st + 1)%Z in
  match texts st !! currentTextIndex st with
  | None =>
      mkState (texts st) (currentTextIndex st) idx (isDeleting st)
              (isPaused st) (textContent st) None
  | Some currentText =>
      let shown := substring0 currentText idx in
      let typeSpeed :=
        if isDeleting st then CONFIG.typingDeleteSpeed else CONFIG.typingSpeed in
      if negb (isDeleting st) && (idx =? Z.of_nat (String.length currentText))%Z
      then mkState (texts st) (currentTextIndex st) idx true true shown
                   (Some CONFIG.typingPause)
      else if isDeleting st && (idx =? 0)%Z
      then mkState (texts st)
                   ((currentTextIndex st + 1) mod length (texts st))
                   idx false (isPaused st) shown (Some typeSpeed)
      else mkState (texts st) (currentTextIndex st) idx (isDeleting st)
                   (isPaused st) shown (Some typeSpeed)
  end.

(** [start()], with the reduced-motion signal it reads. *)
Definition start (reducedMotion : bool) (st : state) : state :=
  if reducedMotion
  then mkState (texts st) (currentTextIndex st) (currentCharIndex st)
               (isDeleting st) (isPaused st)
               (default "" (texts st !! 0)) (pending st)
  else type st.

(** [new TypingAnimation(element, texts)] for an existing element whose
    text is [initial]; [texts = None] stands for an omitted argument. *)
Definition construct (phrases : option (list string)) (initial : string)
    (reducedMotion : bool) : state :=
  start reducedMotion
    (mkState (default defaultTexts phrases) 0 0 false false initial None).

(** [PortfolioApp.pauseAnimations] and [resumeAnimations] on the typing
    component. *)
Definition pauseAnimations (st : state) : state :=
  mkState (texts st) (currentTextIndex st) (currentCharIndex st)
          (isDeleting st) true (textContent st) (pending st).

Definition resumeAnimations (st : state) : state :=
  mkState (texts st) (currentTextIndex st) (currentCharIndex st)
          (isDeleting st) false (textContent st) (pending st).

(** The pending timer fires: [() => this.type()].  Without a pending timer
    nothing can fire. *)
Definition tick (st : state) : state :=
  match pending st with
  | Some _ => type st
  | None => st
  end.

Inductive event := TimerFired | PageHidden | PageVisible.

Definition handle (st : state) (e : event) : state :=
  match e with
  | TimerFired => tick st
  | PageHidden => pauseAnimations st
  | PageVisible => resumeAnimations st
  end.

Definition run (evs : list event) (st : state) : state := foldl handle st evs.

(** The state machine proper, without the pause flag. *)
Definition machine (st : state) : nat * Z * bool :=
  (currentTextIndex st, currentCharIndex st, isDeleting st).

End TypingAnimation.

(** ** IntersectionObserver, as the controllers use it

    Elements are identified by natural numbers.  An observer is its set of
    observation targets; the browser calls the observer's callback with a
    batch of entries, each a target and its [isIntersecting] flag, and only
    reports targets that are under observation when the batch is delivered. *)
Definition entry : Type := nat * bool.

Definition reported (targets : gset nat) (entries : list entry) : list entry :=
  filter (λ e : entry, e.1 ∈ targets) entries.

(** How a controller ended up listening after [init]. *)
Inductive strategy := inactive | observing | polling.

(** ** ScrollAnimations *)
Module ScrollAnimations.

(** [staggered el]: the children [el.querySelectorAll('.stagger-1, ...')]
    finds; [animated]: the elements carrying class [animated]; [timers]: the
    pending [setTimeout]s of [animateElement] (delay, child); [calls]: the
    elements [animateElement] was applied to, in order. *)
Record state := mkState {
  mode : strategy;
  animatedElements : list nat;
  staggered : nat → list nat;
  observedElements : gset nat;
  targets : gset nat;
  animated : gset nat;
  timers : list (Z * nat);
  calls : list nat
}.

Definition animateElement (element : nat) (st : state) : state :=
  mkState (mode st) (animatedElements st) (staggered st)
          (observedElements st) (targets st)
          ({[element]} ∪ animated st)
          (timers st ++ imap (λ index child, (Z.of_nat index * 100, child)%Z)
                             (staggered st element))
          (calls st ++ [element]).

(** The observer callback on one entry, and on a batch. *)
Definition onEntry (st : state) (e : entry) : state :=
  if e.2 then
    let st1 := animateElement e.1 st in
    mkState (mode st1) (animatedElements st1) (staggered st1)
            (observedElements st1 ∖ {[e.1]}) (targets st1 ∖ {[e.1]})
            (animated st1) (timers st1) (calls st1)
  else st.

Definition callback (entries : list entry) (st : state) : state :=
  foldl onEntry st entries.

Definition setupIntersectionObserver (st : state) : state :=
  mkState observing (animatedElements st) (staggered st)
          (observedElements st ∪ list_to_set (animatedElements st))
          (list_to_set (animatedElements st))
          (animated st) (timers st) (calls st).

(** The throttled scroll handler of [fallbackAnimation]; [inViewport el]
    is [Utils.isInViewport(el, 50)] at the time it runs. *)
Definition handleScroll (inViewport : nat → bool) (st : state) : state :=
  foldl (λ st element,
           if inViewport element then animateElement element st else st)
        st (animatedElements st).

Definition fallbackAnimation (inViewport : nat → bool) (st : state) : state :=
  handleScroll inViewport
    (mkState polling (animatedElements st) (staggered st)
             (observedElements st) (targets st)
             (animated st) (timers st) (calls st)).

Definition init (reducedMotion hasIntersectionObserver : bool)
    (inViewport : nat → bool) (st : state) : state :=
  if reducedMotion then st
  else if hasIntersectionObserver then setupIntersectionObserver st
  else fallbackAnimation inViewport st.

(** [new ScrollAnimations()] over the elements of class [animate-on-scroll]. *)
Definition construct (elements : list nat) (children : nat → list nat)
    (reducedMotion hasIntersectionObserver : bool)
    (inViewport : nat → bool) : state :=
  init reducedMotion hasIntersectionObserver inViewport
       (mkState inactive elements children ∅ ∅ ∅ [] []).

Inductive event :=
| Intersections (entries : list entry)
| Scrolled (inViewport : nat → bool)
| TimerFired (k : nat).

(** The [k]-th pending timer fires and marks its child. *)
Definition fire (k : nat) (st : state) : state :=
  match timers st !! k with
  | Some (_, child) =>
      mkState (mode st) (animatedElements st) (staggered st)
              (observedElements st) (targets st)
              ({[child]} ∪ animated st) (delete k (timers st)) (calls st)
  | None => st
  end.

Definition handle (st : state) (ev : event) : state :=
  match ev, mode st with
  | Intersections entries, observing =>
      callback (reported (targets st) entries) st
  | Scrolled inViewport, polling => handleScroll inViewport st
  | TimerFired k, _ => fire k st
  | _, _ => st
  end.

Definition run (evs : list event) (st : state) : state := foldl handle st evs.


End ScrollAnimations.

(** ** Characters and numbers as JavaScript reads them

    Strings are ASCII.  [is_space] is the ASCII part of what [trim],
    [parseInt] and the [\s] class treat as white space. *)
Definition is_space (c : ascii) : bool :=
  let n := nat_of_ascii c in
  ((n =? 32) || ((9 <=? n) && (n <=? 13)))%nat.

Definition is_digit (c : ascii) : bool :=
  let n := nat_of_ascii c in ((48 <=? n) && (n <=? 57))%nat.

Fixpoint drop_spaces (s : list ascii) : list ascii :=
  match s with
  | c :: s' => if is_space c then drop_spaces s' else s
  | [] => []
  end.




(** ** StatsCounter *)
Module StatsCounter.




(** [started]: the elements [animateCounter] was called on, in order. *)
Record state := mkState {
  mode : strategy;
  statElements : list nat;
  animatedStats : gset nat;
  targets : gset nat;
  started : list nat
}.

Definition onEntry (st : state) (e : entry) : state :=
  if e.2 && negb (bool_decide (e.1 ∈ animatedStats st))
  then mkState (mode st) (statElements st)
               ({[e.1]} ∪ animatedStats st)
               (targets st ∖ {[e.1]})
               (started st ++ [e.1])
  else st.

Definition callback (entries : list entry) (st : state) : state :=
  foldl onEntry st entries.

Definition setupIntersectionObserver (st : state) : state :=
  mkState observing (statElements st) (animatedStats st)
          (list_to_set (statElements st)) (started st).

Definition handleScroll (inViewport : nat → bool) (st : state) : state :=
  foldl (λ st element,
           if inViewport element && negb (bool_decide (element ∈ animatedStats st))
           then mkState (mode st) (statElements st)
                        ({[element]} ∪ animatedStats st)
                        (targets st) (started st ++ [element])
           else st)
        st (statElements st).

Definition fallbackCounter (st : state) : state :=
  mkState polling (statElements st) (animatedStats st) (targets st) (started st).

Definition init (reducedMotion hasIntersectionObserver : bool) (st : state)
    : state :=
  if reducedMotion then st
  else if hasIntersectionObserver then setupIntersectionObserver st
  else fallbackCounter st.

Definition construct (elements : list nat)
    (reducedMotion hasIntersectionObserver : bool) : state :=
  init reducedMotion hasIntersectionObserver
       (mkState inactive elements ∅ ∅ []).

Inductive event :=
| Intersections (entries : list entry)
| Scrolled (inViewport : nat → bool).

Definition handle (st : state) (ev : event) : state :=
  match ev, mode st with
  | Intersections entries, observing =>
      callback (reported (targets st) entries) st
  | Scrolled inViewport, polling => handleScroll inViewport st
  | _, _ => st
  end.

Definition run (evs : list event) (st : state) : state := foldl handle st evs.

End StatsCounter.

(** ** SkillBars *)
Module SkillBars.

(** [dataWidth bar]: the bar's [data-width] attribute; [width]: the
    [style.width] written so far; [timers]: the pending [setTimeout]s of
    [animateSkillBar] (bar, value to write); [started]: the bars
    [animateSkillBar] was called on, in order. *)
Record state := mkState {
  mode : strategy;
  skillBars : list nat;
  dataWidth : nat → option string;
  animatedBars : gset nat;
  targets : gset nat;
  width : gmap nat string;
  timers : list (nat * string);
  started : list nat
}.

Definition animateSkillBar (bar : nat) (st : state) : state :=
  let w := default "null" (dataWidth st bar) in
  mkState (mode st) (skillBars st) (dataWidth st) (animatedBars st)
          (targets st) (width st)
          (timers st ++ [(bar, w ++ "%")])
          (started st ++ [bar]).

Definition markAnimated (bar : nat) (unobserve : bool) (st : state) : state :=
  mkState (mode st) (skillBars st) (dataWidth st)
          ({[bar]} ∪ animatedBars st)
          (if unobserve then targets st ∖ {[bar]} else targets st)
          (width st) (timers st) (started st).

Definition onEntry (st : state) (e : entry) : state :=
  if e.2 && negb (bool_decide (e.1 ∈ animatedBars st))
  then markAnimated e.1 true (animateSkillBar e.1 st)
  else st.

Definition callback (entries : list entry) (st : state) : state :=
  foldl onEntry st entries.

Definition setupIntersectionObserver (st : state) : state :=
  mkState observing (skillBars st) (dataWidth st) (animatedBars st)
          (list_to_set (skillBars st)) (width st) (timers st) (started st).

Definition handleScroll (inViewport : nat → bool) (st : state) : state :=
  foldl (λ st bar,
           if inViewport bar && negb (bool_decide (bar ∈ animatedBars st))
           then markAnimated bar false (animateSkillBar bar st)
           else st)
        st (skillBars st).

Definition fallbackAnimation (st : state) : state :=
  mkState polling (skillBars st) (dataWidth st) (animatedBars st)
          (targets st) (width st) (timers st) (started st).

Definition init (reducedMotion hasIntersectionObserver : bool) (st : state)
    : state :=
  if reducedMotion then st
  else if hasIntersectionObserver then setupIntersectionObserver st
  else fallbackAnimation st.

Definition construct (bars : list nat) (attr : nat → option string)
    (reducedMotion hasIntersectionObserver : bool) : state :=
  init reducedMotion hasIntersectionObserver
       (mkState inactive bars attr ∅ ∅ ∅ [] []).

Inductive event :=
| Intersections (entries : list entry)
| Scrolled (inViewport : nat → bool)
| TimerFired (k : nat).

(** The [k]-th pending timer fires: [bar.style.width = `${width}%`]. *)
Definition fire (k : nat) (st : state) : state :=
  match timers st !! k with
  | Some (bar, w) =>
      mkState (mode st) (skillBars st) (dataWidth st) (animatedBars st)
              (targets st) (<[bar := w]> (width st))
              (delete k (timers st)) (started st)
  | None => st
  end.

Definition handle (st : state) (ev : event) : state :=
  match ev, mode st with
  | Intersections entries, observing =>
      callback (reported (targets st) entries) st
  | Scrolled inViewport, polling => handleScroll inViewport st
  | TimerFired k, _ => fire k st
  | _, _ => st
  end.

Definition run (evs : list event) (st : state) : state := foldl handle st evs.

End SkillBars.

(** ** Regular expressions

    The two patterns of [ContactForm.setupValidation] are anchored at both
    ends and use only character classes, concatenation and [+]; [test]
    decides the match of the whole string by derivatives. *)
Module Regex.

Inductive regex :=
| Void
| Eps
| Class (accepts : ascii → bool)
| Cat (r1 r2 : regex)
| Alt (r1 r2 : regex)
| Star (r : regex).

(** [r+] *)
Definition Plus (r : regex) : regex := Cat r (Star r).

Fixpoint nullable (r : regex) : bool :=
  match r with
  | Void => false
  | Eps => true
  | Class _ => false
  | Cat r1 r2 => nullable r1 && nullable r2
  | Alt r1 r2 => nullable r1 || nullable r2
  | Star _ => true
  end.

Fixpoint deriv (c : ascii) (r : regex) : regex :=
  match r with
  | Void => Void
  | Eps => Void
  | Class accepts => if accepts c then Eps else Void
  | Cat r1 r2 =>
      if nullable r1
      then Alt (Cat (deriv c r1) r2) (deriv c r2)
      else Cat (deriv c r1) r2
  | Alt r1 r2 => Alt (deriv c r1) (deriv c r2)
  | Star r1 => Cat (deriv c r1) (Star r1)
  end.

Definition derivs (s : list ascii) (r : regex) : regex :=
  foldl (λ r c, deriv c r) r s.

(** [/^r$/.test(s)] *)
Definition test (r : regex) (s : string) : bool :=
  nullable (derivs (list_ascii_of_string s) r).

(** The language of a pattern. *)
Inductive matches : regex → list ascii → Prop :=
| matches_eps : matches Eps []
| matches_class accepts c : accepts c = true → matches (Class accepts) [c]
| matches_cat r1 r2 s1 s2 :
    matches r1 s1 → matches r2 s2 → matches (Cat r1 r2) (s1 ++ s2)
| matches_alt_l r1 r2 s : matches r1 s → matches (Alt r1 r2) s
| matches_alt_r r1 r2 s : matches r2 s → matches (Alt r1 r2) s
| matches_star_nil r : matches (Star r) []
| matches_star_app r s1 s2 :
    matches r s1 → matches (Star r) s2 → matches (Star r) (s1 ++ s2).

End Regex.

(** ** ContactForm *)
Module ContactForm.

Definition ascii_eqb (a b : ascii) : bool := Ascii.eqb a b.

(** [[^\s@]] *)
Definition notSpaceNorAt (c : ascii) : bool :=
  negb (is_space c || ascii_eqb c "@").

(** [[\d\s\-\+\(\)]] *)
Definition phoneChar (c : ascii) : bool :=
  is_digit c || is_space c || ascii_eqb c "-" || ascii_eqb c "+"
  || ascii_eqb c "(" || ascii_eqb c ")".

(** [/^[^\s@]+@[^\s@]+\.[^\s@]+$/] *)
Definition emailPattern : Regex.regex :=
  Regex.Cat (Regex.Plus (Regex.Class notSpaceNorAt))
   (Regex.Cat (Regex.Class (λ c, ascii_eqb c "@"))
     (Regex.Cat (Regex.Plus (Regex.Class notSpaceNorAt))
       (Regex.Cat (Regex.Class (λ c, ascii_eqb c "."))
                  (Regex.Plus (Regex.Class notSpaceNorAt))))).

(** [/^[\d\s\-\+\(\)]+$/] *)
Definition phonePattern : Regex.regex := Regex.Plus (Regex.Class phoneChar).

(** [s.trim()] *)
Definition trim (s : string) : string :=
  string_of_list_ascii
    (rev (drop_spaces (rev (drop_spaces (list_ascii_of_string s))))).

(** The table built by [setupValidation]. *)
Definition validators_email (value : string) : bool :=
  Regex.test emailPattern value.

Definition validators_phone (value : string) : bool :=
  String.eqb value "" || Regex.test phonePattern value.

Definition validators_required (value : string) : bool :=
  (0 <? String.length (trim value))%nat.

(** The form controls the controller looks at are [input] and [textarea]
    elements. *)
Inductive tag := input | textarea.

Definition toLowerCase (t : tag) : string :=
  match t with input => "input" | textarea => "textarea" end.

(** A control with, from its parent, the [.form-error] element (if there
    is one) and its text, and whether the control carries class [error]. *)
Record field := mkField {
  tagName : tag;
  fieldType : string;
  name : string;
  required : bool;
  value : string;
  defaultValue : string;
  hasErrorElement : bool;
  errorText : string;
  errorClass : bool
}.

(** [validateField(field)]: the verdict and the control as the UI update
    leaves it. *)
Definition validateField (f : field) : bool * field :=
  let v := trim (value f) in
  let isRequired := required f in
  let type := js_or (Some (fieldType f)) (toLowerCase (tagName f)) in
  let '(isValid, errorMessage) :=
    if isRequired && String.eqb v "" then (false, "This field is required")
    else if negb (String.eqb v "") then
      if String.eqb type "email" && negb (validators_email v)
      then (false, "Please enter a valid email address")
      else if String.eqb (name f) "phone" && negb (validators_phone v)
      then (false, "Please enter a valid phone number")
      else (true, "")
    else (true, "") in
  (isValid,
   mkField (tagName f) (fieldType f) (name f) (required f) (value f)
           (defaultValue f) (hasErrorElement f)
           (if hasErrorElement f then errorMessage else errorText f)
           (negb isValid)).

(** The form: its controls in document order, the state of the submit
    button and the toasts shown so far (message, type). *)
Record form := mkForm {
  fields : list field;
  loading : bool;
  submitDisabled : bool;
  notifications : list (string * string)
}.

Definition showMessage (message type : string) (fm : form) : form :=
  mkForm (fields fm) (loading fm) (submitDisabled fm)
         (notifications fm ++ [(message, type)]).

Definition setLoadingState (isLoading : bool) (fm : form) : form :=
  mkForm (fields fm) isLoading isLoading (notifications fm).

(** The [forEach] of [handleSubmit] over the required controls. *)
Fixpoint validateRequired (fs : list field) (isFormValid : bool)
    : list field * bool :=
  match fs with
  | [] => ([], isFormValid)
  | f :: rest =>
      if required f then
        let '(ok, f') := validateField f in
        let '(rest', valid) :=
          validateRequired rest (if ok then isFormValid else false) in
        (f' :: rest', valid)
      else
        let '(rest', valid) := validateRequired rest isFormValid in
        (f :: rest', valid)
  end.

Inductive outcome := blocked | submitting.

(** [handleSubmit] up to the [await]. *)
Definition handleSubmit (fm : form) : form * outcome :=
  let '(fs, isFormValid) := validateRequired (fields fm) true in
  let fm1 := mkForm fs (loading fm) (submitDisabled fm) (notifications fm) in
  if negb isFormValid
  then (showMessage "Please fix the errors above" "error" fm1, blocked)
  else (setLoadingState true fm1, submitting).

Definition clearErrors (fm : form) : form :=
  mkForm (map (λ f, mkField (tagName f) (fieldType f) (name f) (required f)
                            (value f) (defaultValue f) (hasErrorElement f)
                            (if hasErrorElement f then "" else errorText f)
                            false)
              (fields fm))
         (loading fm) (submitDisabled fm) (notifications fm).

(** [form.reset()] *)
Definition reset (fm : form) : form :=
  mkForm (map (λ f, mkField (tagName f) (fieldType f) (name f) (required f)
                            (defaultValue f) (defaultValue f)
                            (hasErrorElement f) (errorText f) (errorClass f))
              (fields fm))
         (loading fm) (submitDisabled fm) (notifications fm).

(** [handleSubmit] after the [await]; [success] is the outcome of
    [simulateFormSubmission] ([Math.random() > 0.1]). *)
Definition settle (success : bool) (fm : form) : form :=
  setLoadingState false
    (if success
     then clearErrors (reset (showMessage
            "Thank you! Your message has been sent successfully. I'll get back to you soon."
            "success" fm))
     else showMessage
            "Sorry, there was an error sending your message. Please try again."
            "error" fm).

End ContactForm.

(** ** LazyLoader *)
Module LazyLoader.

Record image := mkImage {
  dataSrc : option string;
  src : option string;
  loaded : bool;
  error : bool
}.

(** [images]: the [img] elements of the document, an element being its
    index; [selected]: [this.images]; [targets]: the observer's targets;
    [inflight]: the preloads ([new Image()]) started and not yet settled,
    each with the element and the URL its handlers close over; [warnings]:
    what went to [console.warn]. *)
Record state := mkState {
  mode : strategy;
  images : list image;
  selected : list nat;
  targets : gset nat;
  inflight : list (nat * string);
  warnings : list string
}.

Definition loadImage (img : nat) (st : state) : state :=
  match images st !! img with
  | Some im =>
      if truthy (dataSrc im)
      then mkState (mode st) (images st) (selected st) (targets st)
                   (inflight st ++ [(img, default "" (dataSrc im))])
                   (warnings st)
      else st
  | None => st
  end.

Definition onEntry (st : state) (e : entry) : state :=
  if e.2 then
    let st1 := loadImage e.1 st in
    mkState (mode st1) (images st1) (selected st1) (targets st1 ∖ {[e.1]})
            (inflight st1) (warnings st1)
  else st.

Definition callback (entries : list entry) (st : state) : state :=
  foldl onEntry st entries.

Definition setupIntersectionObserver (st : state) : state :=
  mkState observing (images st) (selected st) (list_to_set (selected st))
          (inflight st) (warnings st).

Definition fallbackLoading (st : state) : state :=
  foldl (λ st img, loadImage img st) st (selected st).

Definition init (hasIntersectionObserver : bool) (st : state) : state :=
  match selected st with
  | [] => st
  | _ => if hasIntersectionObserver then setupIntersectionObserver st
         else fallbackLoading st
  end.

(** [document.querySelectorAll('img[data-src]')] *)
Definition withDataSrc (imgs : list image) : list nat :=
  (filter (λ p : nat * image, is_Some (dataSrc p.2)) (imap pair imgs)).*1.

Definition construct (imgs : list image) (hasIntersectionObserver : bool)
    : state :=
  init hasIntersectionObserver
       (mkState inactive imgs (withDataSrc imgs) ∅ [] []).

(** [newImg.onload] of the [k]-th preload in flight. *)
Definition onload (k : nat) (st : state) : state :=
  match inflight st !! k with
  | Some (img, url) =>
      mkState (mode st)
              (alter (λ im, mkImage None (Some url) true (error im)) img
                     (images st))
              (selected st) (targets st) (delete k (inflight st))
              (warnings st)
  | None => st
  end.

(** [newImg.onerror] of the [k]-th preload in flight. *)
Definition onerror (k : nat) (st : state) : state :=
  match inflight st !! k with
  | Some (img, url) =>
      mkState (mode st)
              (alter (λ im, mkImage (dataSrc im) (src im) (loaded im) true) img
                     (images st))
              (selected st) (targets st) (delete k (inflight st))
              (warnings st ++ ["Failed to load image: " ++ url])
  | None => st
  end.

Inductive event :=
| Intersections (entries : list entry)
| Loaded (k : nat)
| Failed (k : nat).

Definition handle (st : state) (ev : event) : state :=
  match ev with
  | Intersections entries =>
      match mode st with
      | observing => callback (reported (targets st) entries) st
      | _ => st
      end
  | Loaded k => onload k st
  | Failed k => onerror k st
  end.

Definition run (evs : list event) (st : state) : state := foldl handle st evs.


End LazyLoader.

(** Invariants of the loader used below.  [untouched img imgs st]: the
    element is as the document had it and no preload of it is in flight;
    [quiet img st]: the element is not observed and no preload of it is in
    flight; [settledTargets st]: no element with a preload in flight is still
    observed. *)
Definition LazyLoader_untouched (img : nat) (imgs : list LazyLoader.image)
    (st : LazyLoader.state) : Prop :=
  LazyLoader.images st !! img = imgs !! img ∧
  ∀ p, p ∈ LazyLoader.inflight st → p.1 ≠ img.






(** ** Utils.throttle and Utils.debounce

    The function returned by [throttle(func, limit)] or [debounce(func,
    wait)] is an object with private state; a call of it and the expiry of
    the timer it set are the two things that can happen to it.  [executed]
    lists the arguments [func] was run with, in order. *)
Module Throttle.
Section throttle.
Context {A : Type}.

(** [timers]: how many [setTimeout]s of the wrapper are pending. *)
Record state := mkState {
  inThrottle : bool;
  timers : nat;
  executed : list A
}.

Definition fresh : state := mkState false 0 [].

(** A call of the returned function with arguments [args]. *)
Definition call (args : A) (st : state) : state :=
  if negb (inThrottle st)
  then mkState true (S (timers st)) (executed st ++ [args])
  else st.

(** A pending timer fires: [() => inThrottle = false]. *)
Definition expire (st : state) : state :=
  match timers st with
  | S n => mkState false n (executed st)
  | O => st
  end.

Inductive event := Call (args : A) | Expire.

Definition handle (st : state) (ev : event) : state :=
  match ev with
  | Call args => call args st
  | Expire => expire st
  end.

Definition run (evs : list event) (st : state) : state := foldl handle st evs.

(** The arguments of the calls of a trace, and the number of expiries. *)
Definition calls (evs : list event) : list A :=
  omap (λ ev, match ev with Call a => Some a | Expire => None end) evs.

Definition expiries (evs : list event) : nat :=
  length (omap (λ ev, match ev with Expire => Some () | Call _ => None end) evs).

(** The timer is pending exactly while the wrapper is throttled. *)
Definition invariant (st : state) : Prop :=
  timers st = if inThrottle st then 1 else 0.

End throttle.
Arguments state : clear implicits.
Arguments event : clear implicits.
End Throttle.

Module Debounce.
Section debounce.
Context {A : Type}.

(** [timeout]: the pending timer, with the arguments its [later] closes
    over ([clearTimeout] before each [setTimeout] leaves at most one). *)
Record state := mkState {
  timeout : option A;
  executed : list A
}.

Definition fresh : state := mkState None [].

Definition call (args : A) (st : state) : state :=
  mkState (Some args) (executed st).

(** The pending timer fires: [later] runs [func(...args)]. *)
Definition expire (st : state) : state :=
  match timeout st with
  | Some args => mkState None (executed st ++ [args])
  | None => st
  end.

Inductive event := Call (args : A) | Expire.

Definition handle (st : state) (ev : event) : state :=
  match ev with
  | Call args => call args st
  | Expire => expire st
  end.

Definition run (evs : list event) (st : state) : state := foldl handle st evs.

Definition expiries (evs : list event) : nat :=
  length (omap (λ ev, match ev with Expire => Some () | Call _ => None end) evs).

Definition calls (evs : list event) : list A :=
  omap (λ ev, match ev with Call a => Some a | Expire => None end) evs.

End debounce.
Arguments state : clear implicits.
Arguments event : clear implicits.
End Debounce.

(** ** DOMCache *)
Module DOMCache.

(** The document as the cache queries it. *)
Record document := mkDocument {
  querySelector : string → option nat;
  querySelectorAll : string → list nat
}.

(** A cached value: what [querySelector] gave (an element or [null]) or
    the static list [querySelectorAll] gave. *)
Inductive cached :=
| element (e : option nat)
| nodeList (l : list nat).

Definition selectors : list (string * string) :=
  [ ("navbar", "#navbar"); ("navToggle", "#nav-toggle");
    ("navMenu", "#nav-menu"); ("navLinks", ".nav-link");
    ("themeToggle", "#theme-toggle");
    ("themeToggleMobile", "#theme-toggle-mobile");
    ("typingText", "#typing-text"); ("heroText", ".hero-text");
    ("heroImage", ".hero-image"); ("heroSocial", ".hero-social");
    ("backToTop", "#back-to-top"); ("contactForm", "#contact-form");
    ("animateElements", ".animate-on-scroll");
    ("statNumbers", ".stat-number"); ("skillBars", ".skill-progress") ].

(** [selector.startsWith('.')] *)
Definition startsWithDot (selector : string) : bool :=
  match selector with
  | String c _ => Ascii.eqb c "."
  | EmptyString => false
  end.

Definition query (doc : document) (selector : string) : cached :=
  if startsWithDot selector
  then nodeList (querySelectorAll doc selector)
  else element (querySelector doc selector).

Definition cacheElements (doc : document) (elements : gmap string cached)
    : gmap string cached :=
  foldl (λ m kv, <[kv.1 := query doc kv.2]> m) elements selectors.

(** [new DOMCache()] *)
Definition construct (doc : document) : gmap string cached :=
  cacheElements doc ∅.



End DOMCache.

(** ** ThemeManager: the listeners of the toggle buttons *)
Module ThemeButtons.

(** [button.addEventListener('click', ...)] *)
Definition onClick (st : ThemeManager.state) : ThemeManager.state :=
  ThemeManager.toggleTheme st.

(** [button.addEventListener('keydown', ...)] *)
Definition onKeydown (key : string) (st : ThemeManager.state)
    : ThemeManager.state :=
  if String.eqb key "Enter" || String.eqb key " "
  then ThemeManager.toggleTheme st
  else st.

Inductive event :=
| Click
| Keydown (key : string)
| SystemChanged (matches : bool).

Definition handle (st : ThemeManager.state) (ev : event) : ThemeManager.state :=
  match ev with
  | Click => onClick st
  | Keydown key => onKeydown key st
  | SystemChanged m => ThemeManager.onSystemChange m st
  end.

Definition run (evs : list event) (st : ThemeManager.state)
    : ThemeManager.state :=
  foldl handle st evs.

(** Whether an event reaches [toggleTheme], and how many of a trace do. *)
Definition toggling (ev : event) : bool :=
  match ev with
  | Click => true
  | Keydown key => String.eqb key "Enter" || String.eqb key " "
  | SystemChanged _ => false
  end.

Definition toggles (evs : list event) : nat :=
  length (List.filter toggling evs).

(** The value [toggleTheme] moves to from [theme]. *)
Definition flip (theme : string) : string :=
  if String.eqb theme "dark" then "light" else "dark".

(** The toggle buttons show the current theme. *)
Definition shown (st : ThemeManager.state) : Prop :=
  let dark := String.eqb (ThemeManager.currentTheme st) "dark" in
  ThemeManager.ariaPressed st = dark ∧
  ThemeManager.iconClass st = (if dark then "fas fa-sun" else "fas fa-moon") ∧
  ThemeManager.buttonTitle st
  = "Switch to " ++ (if dark then "light" else "dark") ++ " theme".

End ThemeButtons.

(** ** NavigationManager: events, link clicks and the active link *)
Module NavigationEvents.

Inductive event :=
| Click (target : NavigationManager.clickTarget)
| ToggleKeydown (key : string)
| DocumentKeydown (key : string)
| Resized (width : Z).

(** A key pressed on the toggle reaches the toggle's listener and then the
    document's. *)
Definition handle (st : NavigationManager.state) (ev : event)
    : NavigationManager.state :=
  match ev with
  | Click target => NavigationManager.click target st
  | ToggleKeydown key =>
      NavigationManager.onDocumentKeydown key
        (NavigationManager.onToggleKeydown key st)
  | DocumentKeydown key => NavigationManager.onDocumentKeydown key st
  | Resized width => NavigationManager.handleResize width st
  end.

Definition run (evs : list event) (st : NavigationManager.state)
    : NavigationManager.state :=
  foldl handle st evs.

(** What [toggleMobileMenu] writes agrees with the flag. *)
Definition synced (st : NavigationManager.state) : Prop :=
  NavigationManager.menuActive st = NavigationManager.isMenuOpen st ∧
  NavigationManager.toggleActive st = NavigationManager.isMenuOpen st ∧
  NavigationManager.ariaExpanded st = NavigationManager.isMenuOpen st ∧
  NavigationManager.ariaHidden st = negb (NavigationManager.isMenuOpen st) ∧
  NavigationManager.bodyOverflowHidden st = NavigationManager.isMenuOpen st.

(** [href.startsWith('#')] *)
Definition startsWithHash (href : string) : bool :=
  match href with
  | String c _ => Ascii.eqb c "#"
  | EmptyString => false
  end.

(** What [document.querySelector(href)] does: it returns an element or
    null, or throws on a selector it cannot parse. *)
Inductive queryResult :=
| found (element : nat)
| notFound
| syntaxError.

(** What a call of [handleNavClick] did besides changing the menu:
    whether it called [preventDefault], the [setTimeout] it set (delay in
    milliseconds and scroll target), and whether it threw. *)
Record effect := mkEffect {
  defaultPrevented : bool;
  scheduled : option (Z * nat);
  threw : bool
}.

(** [handleNavClick(e, link)]; [href] is [link.getAttribute('href')] and
    [query] what the document answers for it. *)
Definition handleNavClick (href : option string) (query : queryResult)
    (st : NavigationManager.state) : NavigationManager.state * effect :=
  if truthy href && startsWithHash (default "" href) then
    match query with
    | found targetSection =>
        let st1 := NavigationManager.closeMobileMenu st in
        (st1, mkEffect true
                (Some (if NavigationManager.isMenuOpen st1 then 300%Z else 0%Z,
                       targetSection))
                false)
    | notFound => (st, mkEffect false None false)
    | syntaxError => (st, mkEffect false None true)
    end
  else (st, mkEffect false None false).

End NavigationEvents.

(** ** NavigationManager.updateActiveLink

    Positions are in whole pixels: [top] is
    [getBoundingClientRect().top + window.scrollY] and [height] is
    [offsetHeight]. *)
Module ActiveLink.

Record section := mkSection {
  id : string;
  top : Z;
  height : Z
}.

Record link := mkLink {
  href : option string;
  active : bool;
  ariaCurrent : option string
}.

Record state := mkState {
  activeSection : option string;
  navLinks : list link
}.

(** [a === b] for values that are [null] or strings. *)
Definition strictEq (a b : option string) : bool :=
  match a, b with
  | Some x, Some y => String.eqb x y
  | None, None => true
  | _, _ => false
  end.

Definition contains (scrollPos : Z) (s : section) : bool :=
  (top s <=? scrollPos)%Z && (scrollPos <? top s + height s)%Z.

(** The [forEach] that finds the current section. *)
Definition findCurrent (sections : list section) (scrollPos : Z)
    : option string :=
  foldl (λ currentSection s,
           if contains scrollPos s then Some (id s) else currentSection)
        None sections.

Definition updateActiveLink (sections : list section) (scrollY : Z)
    (st : state) : state :=
  let scrollPos := (scrollY + 100)%Z in
  let currentSection := findCurrent sections scrollPos in
  if truthy currentSection && negb (strictEq currentSection (activeSection st))
  then
    mkState currentSection
      (map (λ l,
              let isActive :=
                strictEq (href l) (Some ("#" ++ default "" currentSection)) in
              mkLink (href l) isActive
                     (Some (if isActive then "page" else "false")))
           (navLinks st))
  else st.

End ActiveLink.

(** ** What the traces of the "animate once" controllers report

    [StatsCounter_seen io el ev]: event [ev] tells a controller on the
    observer strategy ([io = true]) or on the polling strategy
    ([io = false]) that element [el] is visible. *)
Definition StatsCounter_seen (io : bool) (el : nat) (ev : StatsCounter.event)
    : Prop :=
  match ev with
  | StatsCounter.Intersections entries => io = true ∧ (el, true) ∈ entries
  | StatsCounter.Scrolled inViewport => io = false ∧ inViewport el = true
  end.

(** The state of StatsCounter is determined by what was started. *)
Definition StatsCounter_shape (elements : list nat) (io : bool)
    (st : StatsCounter.state) : Prop :=
  StatsCounter.mode st = (if io then observing else polling) ∧
  StatsCounter.statElements st = elements ∧
  (∀ e, e ∈ StatsCounter.animatedStats st ↔ e ∈ StatsCounter.started st) ∧
  (io = true →
   ∀ e, e ∈ StatsCounter.targets st ↔
        e ∈ elements ∧ e ∉ StatsCounter.started st).



(** ScrollAnimations: the bookkeeping set mirrors the observer, every
    animated element carries the class, and the class is only on animated
    elements and their staggered children. *)
Definition ScrollAnimations_marks (st : ScrollAnimations.state) : Prop :=
  ScrollAnimations.observedElements st = ScrollAnimations.targets st ∧
  (∀ e, e ∈ ScrollAnimations.calls st → e ∈ ScrollAnimations.animated st) ∧
  (∀ p, p ∈ ScrollAnimations.timers st →
        ∃ e, e ∈ ScrollAnimations.calls st ∧
             p.2 ∈ ScrollAnimations.staggered st e) ∧
  (∀ c, c ∈ ScrollAnimations.animated st →
        c ∈ ScrollAnimations.calls st ∨
        ∃ e, e ∈ ScrollAnimations.calls st ∧
             c ∈ ScrollAnimations.staggered st e).

(** ** LazyLoader: what an image can have become

    [LazyLoader_faithful im0 im]: image [im] is the document's image [im0]
    either untouched (but for the [error] class) or loaded from the value
    its [data-src] had. *)
Definition LazyLoader_faithful (im0 im : LazyLoader.image) : Prop :=
  (LazyLoader.dataSrc im = LazyLoader.dataSrc im0 ∧
   LazyLoader.src im = LazyLoader.src im0 ∧
   LazyLoader.loaded im = LazyLoader.loaded im0) ∨
  (LazyLoader.dataSrc im = None ∧
   LazyLoader.src im = LazyLoader.dataSrc im0 ∧
   LazyLoader.loaded im = true ∧
   truthy (LazyLoader.dataSrc im0) = true).

Definition LazyLoader_sound (imgs : list LazyLoader.image)
    (st : LazyLoader.state) : Prop :=
  length (LazyLoader.images st) = length imgs ∧
  (∀ i im0 im, imgs !! i = Some im0 → LazyLoader.images st !! i = Some im →
               LazyLoader_faithful im0 im) ∧
  (∀ p, p ∈ LazyLoader.inflight st →
        ∃ im0, imgs !! p.1 = Some im0 ∧
               LazyLoader.dataSrc im0 = Some p.2 ∧ p.2 ≠ "").

(** ** PortfolioApp: construction of the components

    [throws name]: whether the constructor of the component registered
    under [name] throws on this page; [hasTypingText]: whether
    [#typing-text] exists.  (The constructors of [DOMCache] and
    [TypingAnimation] and [setupGlobalEvents] do not throw, so the [catch]
    of [init] is never entered.) *)
Module PortfolioApp.

Record page := mkPage {
  throws : string → bool;
  hasTypingText : bool
}.

(** [components]: the registry, from name to the class of the instance;
    [globalEvents]: how many times [setupGlobalEvents] registered its
    listeners; [log]: the console. *)
Record state := mkState {
  isInitialized : bool;
  components : gmap string string;
  globalEvents : nat;
  log : list string
}.

Definition fresh : state := mkState false ∅ 0 [].

Definition componentClasses : list (string * string) :=
  [ ("errorHandler", "ErrorHandler");
    ("performanceMonitor", "PerformanceMonitor");
    ("accessibilityEnhancer", "AccessibilityEnhancer");
    ("themeManager", "ThemeManager");
    ("navigationManager", "NavigationManager");
    ("scrollAnimations", "ScrollAnimations");
    ("statsCounter", "StatsCounter"); ("skillBars", "SkillBars");
    ("contactForm", "ContactForm"); ("backToTop", "BackToTop");
    ("lazyLoader", "LazyLoader") ].

(** One turn of the [forEach] with its [try]/[catch]. *)
Definition tryComponent (pg : page) (st : state) (c : string * string)
    : state :=
  if throws pg c.1
  then mkState (isInitialized st) (components st) (globalEvents st)
               (log st ++ ["Failed to initialize " ++ c.1])
  else mkState (isInitialized st) (<[c.1 := c.2]> (components st))
               (globalEvents st) (log st).

Definition initializeComponents (pg : page) (st : state) : state :=
  let st1 := foldl (tryComponent pg) st componentClasses in
  if hasTypingText pg
  then mkState (isInitialized st1)
               (<["typingAnimation" := "TypingAnimation"]> (components st1))
               (globalEvents st1) (log st1)
  else st1.

Definition init (pg : page) (st : state) : state :=
  if isInitialized st then st
  else
    let st1 := initializeComponents pg st in
    mkState true (components st1) (S (globalEvents st1))
            (log st1 ++ ["Portfolio app initialized successfully"]).


End PortfolioApp.

(** ** Utils.isInViewport

    The four sides of [getBoundingClientRect()] are rationals (every finite
    double is one); the window's sizes and the offset are integers. *)
Module Viewport.

Record rect := mkRect {
  top : QArith_base.Q;
  bottom : QArith_base.Q;
  left : QArith_base.Q;
  right : QArith_base.Q
}.

Record window := mkWindow {
  innerHeight : Z;
  clientHeight : Z;
  innerWidth : Z;
  clientWidth : Z
}.

(** [a || b] on numbers: [a] unless it is 0. *)
Definition orNumber (a b : Z) : Z := if (a =? 0)%Z then b else a.

Definition isInViewport (w : window) (r : rect) (offset : Z) : bool :=
  QArith_base.Qle_bool (top r)
    (QArith_base.inject_Z (orNumber (innerHeight w) (clientHeight w) - offset))
  && QArith_base.Qle_bool (QArith_base.inject_Z offset) (bottom r)
  && QArith_base.Qle_bool (left r)
       (QArith_base.inject_Z (orNumber (innerWidth w) (clientWidth w)))
  && QArith_base.Qle_bool (QArith_base.inject_Z 0) (right r).

(** The rectangle of an element that is not rendered. *)
Definition emptyRect : rect :=
  mkRect (QArith_base.inject_Z 0) (QArith_base.inject_Z 0)
         (QArith_base.inject_Z 0) (QArith_base.inject_Z 0).

End Viewport.

(** * Theorems *)

Section ThemeManager_facts.
Import ThemeManager.

Lemma setTheme_fields theme st :
  currentTheme (setTheme theme st) = theme ∧
  dataTheme (setTheme theme st) = Some theme ∧
  storage (setTheme theme st) = Some theme.
Proof. by cbn. Qed.

Lemma toggleTheme_value st :
  currentTheme (toggleTheme st) =
  if String.eqb (currentTheme st) "dark" then "light" else "dark".
Proof. by cbn. Qed.

Lemma js_or_nonempty a b : b ≠ "" → js_or a b ≠ "".
Proof.
  intros Hb. destruct a as [s|]; cbn; [|done].
  destruct (String.eqb s "") eqn:E; [done|].
  by apply String.eqb_neq.
Qed.

Lemma js_or_some s b : s ≠ "" → js_or (Some s) b = s.
Proof. intros Hs. cbn. apply String.eqb_neq in Hs. by rewrite Hs. Qed.

Lemma getSystemTheme_nonempty d : getSystemTheme d ≠ "".
Proof. by destruct d. Qed.

Lemma construct_agreed stored d : agreed (construct stored d).
Proof.
  unfold agreed, construct. cbn.
  split; [|done]. apply js_or_nonempty, getSystemTheme_nonempty.
Qed.

Lemma handle_agreed st e : agreed st → agreed (handle st e).
Proof.
  intros (Hne & Hd & Hs). destruct e as [|m]; cbn.
  - unfold agreed; cbn. split; [|done].
    by destruct (String.eqb (currentTheme st) "dark").
  - unfold onSystemChange, getStoredTheme. rewrite Hs. cbn.
    rewrite (proj2 (String.eqb_neq _ _) Hne). by cbn.
Qed.

Lemma run_agreed evs st : agreed st → agreed (run evs st).
Proof.
  revert st. induction evs as [|e evs IH]; intros st H; cbn; [done|].
  apply IH, handle_agreed, H.
Qed.


(** The guard of the media-query listener, taken alone: with nothing (or the
    empty string) under the key the OS value is applied, with a truthy value
    under the key the listener does nothing. *)
Lemma onSystemChange_unset m st :
  truthy (storage st) = false →
  dataTheme (onSystemChange m st) = Some (getSystemTheme m).
Proof. unfold onSystemChange, getStoredTheme. intros ->. by destruct m. Qed.

Lemma onSystemChange_set m st :
  truthy (storage st) = true → onSystemChange m st = st.
Proof. unfold onSystemChange, getStoredTheme. by intros ->. Qed.

(** After construction the key is always set, so the listener never acts. *)
Lemma onSystemChange_constructed stored d evs m :
  onSystemChange m (run evs (construct stored d)) = run evs (construct stored d).
Proof.
  apply onSystemChange_set.
  destruct (run_agreed evs _ (construct_agreed stored d)) as (Hne & _ & ->).
  cbn. by rewrite (proj2 (String.eqb_neq _ _) Hne).
Qed.

(** C1 (evaluation at the failing input): a first visit with nothing in
    storage and a light OS scheme; the constructor persists the OS-derived
    default, and the OS switching to dark afterwards leaves the applied theme
    at light although the visitor never chose a theme. *)
Theorem system_change_ignored_after_first_visit :
  storage (construct None false) = Some "light" ∧
  dataTheme (construct None false) = Some "light" ∧
  dataTheme (onSystemChange true (construct None false)) = Some "light".
Proof. by vm_compute. Qed.






End ThemeManager_facts.

Section NavigationManager_facts.
Import NavigationManager.

Lemma closeMobileMenu_closed st : isMenuOpen (closeMobileMenu st) = false.
Proof. unfold closeMobileMenu. by destruct (isMenuOpen st) eqn:E; cbn; rewrite ?E. Qed.

Lemma closeMobileMenu_noop st : isMenuOpen st = false → closeMobileMenu st = st.
Proof. unfold closeMobileMenu. by intros ->. Qed.

Lemma past_mobile_breakpoint w :
  (CONFIG.BREAKPOINTS_mobile < w)%Z →
  Utils.viewportSize_eqb (Utils.getViewportSize w) Utils.mobile = false.
Proof.
  intros H. unfold Utils.getViewportSize.
  destruct (Z.leb_spec w CONFIG.BREAKPOINTS_mobile); [lia|].
  by repeat case_match.
Qed.

(** C9: with the menu elements present and the menu open, the resize
    handler run at a width above the mobile breakpoint, an Escape key press
    and a click outside menu and toggle each leave the menu closed (flag,
    [active] class and scroll lock cleared); with the menu closed, the resize
    handler at any width, any key press on the document and a click outside
    (or inside the menu) leave the whole state unchanged. *)
Theorem mobile_menu_close_events (st : state) :
  navPresent st = true →
  (isMenuOpen st = true →
     (∀ w, (CONFIG.BREAKPOINTS_mobile < w)%Z →
           isMenuOpen (handleResize w st) = false ∧
           menuActive (handleResize w st) = false ∧
           bodyOverflowHidden (handleResize w st) = false) ∧
     isMenuOpen (onDocumentKeydown "Escape" st) = false ∧
     menuActive (onDocumentKeydown "Escape" st) = false ∧
     isMenuOpen (click outside st) = false ∧
     menuActive (click outside st) = false) ∧
  (isMenuOpen st = false →
     (∀ w, handleResize w st = st) ∧
     (∀ key, onDocumentKeydown key st = st) ∧
     click outside st = st ∧
     click inMenu st = st).
Proof.
  intros Hp. split; intros Ho.
  - split.
    + intros w Hw. unfold handleResize.
      rewrite (past_mobile_breakpoint w Hw), Ho. cbn.
      unfold closeMobileMenu. rewrite Ho. by cbn; rewrite Ho.
    + unfold click, onDocumentKeydown, onDocumentClick, closeMobileMenu.
      rewrite Hp, Ho. cbn. by rewrite Ho.
  - split; [|split; [|split]].
    + intros w. unfold handleResize. rewrite Ho.
      by rewrite andb_false_r.
    + intros key. unfold onDocumentKeydown. rewrite Hp, Ho.
      by rewrite andb_false_r.
    + unfold click, onDocumentClick. by rewrite Hp, Ho.
    + unfold click, onDocumentClick. by rewrite Hp, Ho.
Qed.

Lemma mobile_menu_close_events_witness :
  isMenuOpen (handleResize 1024 (toggleMobileMenu (construct true))) = false ∧
  isMenuOpen (onDocumentKeydown "Escape" (toggleMobileMenu (construct true))) = false ∧
  isMenuOpen (click outside (toggleMobileMenu (construct true))) = false ∧
  click outside (construct true) = construct true.
Proof.
  destruct (mobile_menu_close_events (toggleMobileMenu (construct true)) eq_refl)
    as [Hopen _].
  destruct (Hopen eq_refl) as (Hr & He & _ & Hc & _).
  destruct (Hr 1024%Z) as (Hr1 & _); [reflexivity|].
  destruct (mobile_menu_close_events (construct true) eq_refl) as [_ Hclosed].
  destruct (Hclosed eq_refl) as (_ & _ & Hc' & _).
  repeat split; assumption.
Defined.

End NavigationManager_facts.

Section TypingAnimation_facts.
Import TypingAnimation.

(** [type()] never reads [isPaused]: the step it takes is the same with the
    flag set. *)
Lemma type_ignores_isPaused st :
  machine (type (pauseAnimations st)) = machine (type st) ∧
  textContent (type (pauseAnimations st)) = textContent (type st) ∧
  pending (type (pauseAnimations st)) = pending (type st).
Proof.
  unfold type, machine. cbn.
  destruct (texts st !! currentTextIndex st); [|done].
  by repeat case_match.
Qed.

(** Setting or clearing the flag leaves the state machine where it is. *)
Lemma pause_resume_keep_machine st :
  machine (pauseAnimations st) = machine st ∧
  machine (resumeAnimations st) = machine st ∧
  textContent (pauseAnimations st) = textContent st ∧
  pending (pauseAnimations st) = pending st.
Proof. done. Qed.

(** C3 (evaluation at the failing input): phrases "Go", "JS"; after
    construction the text is "G"; the page is hidden, which sets [isPaused];
    the pending timer then fires and the text becomes "Go", the character
    index 2, and the next timer is scheduled. *)
Theorem paused_typing_still_advances :
  let st := pauseAnimations (construct (Some ["Go"; "JS"]) "" false) in
  isPaused st = true ∧
  textContent st = "G" ∧ machine st = (0, 1%Z, false) ∧
  textContent (tick st) = "Go" ∧ machine (tick st) = (0, 2%Z, true) ∧
  pending (tick st) = Some CONFIG.typingPause.
Proof. by vm_compute. Qed.

Lemma iter_tick_period initial :
  let s8 := Nat.iter 8 tick (construct (Some ["Go"; "JS"]) initial false) in
  ∀ q, Nat.iter (8 * S q) tick (construct (Some ["Go"; "JS"]) initial false) = s8.
Proof.
  intros s8 q. induction q as [|q IH].
  - done.
  - replace (8 * S (S q)) with (8 + 8 * S q) by lia.
    rewrite Nat.iter_add, IH. by vm_compute.
Qed.

(** Without a pending timer nothing ever changes text or machine. *)
Lemma run_no_timer evs st :
  pending st = None →
  textContent (run evs st) = textContent st ∧
  machine (run evs st) = machine st ∧
  pending (run evs st) = None.
Proof.
  revert st. induction evs as [|e evs IH]; intros st Hp; [done|].
  cbn. destruct (IH (handle st e)) as (Ht & Hm & Hq).
  - destruct e; cbn; [|done..]. unfold tick. by rewrite Hp.
  - fold (run evs (handle st e)). rewrite Ht, Hm, Hq.
    destruct e; cbn; [|done..]. unfold tick. by rewrite Hp.
Qed.

(** C6: for the phrases "Go", "JS" without reduced motion, the text shown
    after construction and [n] timer ticks is entry [n mod 8] of
    "G", "Go", "G", "", "J", "JS", "J", "", and the delay of the timer then
    pending is entry [n mod 8] of 100, 2000, 50, 50, 100, 2000, 50, 50 (the
    pause follows each completed phrase); with reduced motion the text is
    "Go" at construction, no timer is pending, and it is still "Go" after
    any sequence of timer and visibility events. *)
Theorem typing_Go_JS_sequence (initial : string) :
  (∀ n,
     let st := Nat.iter n tick (construct (Some ["Go"; "JS"]) initial false) in
     textContent st = nth (n mod 8) ["G"; "Go"; "G"; ""; "J"; "JS"; "J"; ""] "" ∧
     pending st =
       Some (nth (n mod 8) [100; 2000; 50; 50; 100; 2000; 50; 50]%Z 0%Z)) ∧
  (∀ evs,
     let st := run evs (construct (Some ["Go"; "JS"]) initial true) in
     textContent st = "Go" ∧ pending st = None).
Proof.
  split.
  - intros n st. subst st.
    pose proof (Nat.div_mod_eq n 8) as Hn.
    pose proof (Nat.mod_upper_bound n 8 ltac:(lia)) as Hr.
    set (r := n mod 8) in *. set (q := n / 8) in *.
    replace n with (r + 8 * q) by lia. clearbody r q. clear Hn.
    rewrite Nat.iter_add.
    destruct q as [|q].
    + do 8 (destruct r as [|r]; [by vm_compute|]). lia.
    + rewrite iter_tick_period.
      do 8 (destruct r as [|r]; [by vm_compute|]). lia.
  - intros evs st. subst st.
    by destruct (run_no_timer evs (construct (Some ["Go"; "JS"]) initial true)
                   eq_refl) as (-> & _ & ->).
Qed.

End TypingAnimation_facts.

Section StatsCounter_frames.
Import StatsCounter.
Local Open Scope Z_scope.





End StatsCounter_frames.




Section StatsCounter_once.
Import StatsCounter.








End StatsCounter_once.

Section SkillBars_once.
Import SkillBars.










End SkillBars_once.

Section ScrollAnimations_once.
Import ScrollAnimations.






End ScrollAnimations_once.




Section Regex_facts.
Import Regex.
Local Open Scope list_scope.











End Regex_facts.

Section ContactForm_facts.
Import ContactForm.









End ContactForm_facts.

Section LazyLoader_facts.
Import LazyLoader.

Lemma loadImage_frame img st :
  mode (loadImage img st) = mode st ∧
  images (loadImage img st) = images st ∧
  selected (loadImage img st) = selected st ∧
  targets (loadImage img st) = targets st.
Proof.
  unfold loadImage. destruct (images st !! img) as [im|]; [|done].
  by destruct (truthy (dataSrc im)).
Qed.

Lemma loadImage_inflight img st p :
  p ∈ inflight (loadImage img st) → p ∈ inflight st ∨ p.1 = img.
Proof.
  unfold loadImage. destruct (images st !! img) as [im|]; [|by left].
  destruct (truthy (dataSrc im)); [|by left]. cbn.
  intros [H| ->%list_elem_of_singleton]%elem_of_app; [by left|by right].
Qed.



Lemma elem_of_delete_lookup {A} (l : list A) k x :
  x ∈ delete k l → ∃ j, j ≠ k ∧ l !! j = Some x.
Proof.
  intros [j Hj]%list_elem_of_lookup_1.
  destruct (decide (j < k)) as [Hlt|Hge].
  - rewrite list_lookup_delete_lt in Hj by done. exists j. split; [lia|done].
  - rewrite list_lookup_delete_ge in Hj by lia. exists (S j). split; [lia|done].
Qed.

Lemma elem_of_delete_elem {A} (l : list A) k x : x ∈ delete k l → x ∈ l.
Proof.
  intros (j & _ & Hj)%elem_of_delete_lookup. by eapply list_elem_of_lookup_2.
Qed.

(** *** Nothing happens to an image the observer has not reported *)

Lemma onEntry_untouched i imgs st e :
  ¬ (e.1 = i ∧ e.2 = true) →
  LazyLoader_untouched i imgs st → LazyLoader_untouched i imgs (onEntry st e).
Proof.
  intros Hne [Him Hfl]. unfold onEntry. destruct e.2 eqn:E; [|done].
  destruct (loadImage_frame e.1 st) as (_ & Hi & _ & _).
  split; cbn.
  - by rewrite Hi.
  - intros p [Hp|Hp]%loadImage_inflight; [by apply Hfl|].
    rewrite Hp. intros Heq. by apply Hne.
Qed.


Lemma settle_untouched i imgs st k :
  LazyLoader_untouched i imgs st →
  LazyLoader_untouched i imgs (onload k st) ∧
  LazyLoader_untouched i imgs (onerror k st).
Proof.
  intros [Him Hfl]. unfold onload, onerror.
  destruct (inflight st !! k) as [[img url]|] eqn:E; [|done].
  assert (img ≠ i) as Hne.
  { apply (Hfl (img, url)). by eapply list_elem_of_lookup_2. }
  split; (split; cbn;
    [by rewrite list_lookup_alter_ne
    |intros p Hp%elem_of_delete_elem; by apply Hfl]).
Qed.




(** *** The fallback starts every preload at once *)




(** *** After a failure *)













End LazyLoader_facts.

(** * Further properties of the code *)

Local Open Scope list_scope.
Local Open Scope nat_scope.

Section Throttle_facts.
Context {A : Type}.
Import Throttle.

Lemma Throttle_handle_invariant (st : state A) ev :
  invariant st → invariant (handle st ev).
Proof.
  unfold invariant. intros H. destruct ev as [a|]; cbn.
  - unfold call. destruct (inThrottle st) eqn:E; cbn; [by rewrite E|].
    rewrite H. done.
  - unfold expire. destruct (timers st) as [|n] eqn:E; cbn.
    + by rewrite E.
    + destruct (inThrottle st); lia.
Qed.

Lemma Throttle_run_invariant (evs : list (event A)) st :
  invariant st → invariant (run evs st).
Proof.
  revert st. induction evs as [|ev evs IH]; intros st H; cbn; [done|].
  by apply IH, Throttle_handle_invariant.
Qed.

Lemma Throttle_run_executed (evs : list (event A)) st :
  ∃ l, executed (run evs st) = executed st ++ l ∧
       l `sublist_of` calls evs ∧
       length l + (if inThrottle st then 1 else 0) ≤ S (expiries evs).
Proof.
  revert st. induction evs as [|ev evs IH]; intros st.
  - exists []. rewrite app_nil_r. cbn. split; [done|]. split; [done|].
    destruct (inThrottle st); lia.
  - change (run (ev :: evs) st) with (run evs (handle st ev)).
    destruct (IH (handle st ev)) as (l & -> & Hsub & Hlen).
    destruct ev as [a|].
    + change (calls (Call a :: evs)) with (a :: calls evs).
      change (expiries (Call a :: evs)) with (expiries evs).
      cbn [handle] in *. unfold call in *.
      destruct (inThrottle st) eqn:E; cbn [inThrottle executed negb] in *.
      * exists l. rewrite ?E in Hlen.
        split; [done|]. split; [by apply sublist_cons|done].
      * exists (a :: l). rewrite <- app_assoc.
        split; [done|]. split; [by apply sublist_skip|cbn; lia].
    + change (calls (Expire :: evs)) with (calls evs).
      change (expiries (@Expire A :: evs)) with (S (expiries evs)).
      cbn [handle] in *. unfold expire in *. exists l.
      destruct (timers st); cbn [inThrottle executed] in *.
      * split; [done|]. split; [done|]. destruct (inThrottle st); lia.
      * split; [done|]. split; [done|]. destruct (inThrottle st); lia.
Qed.

(** X1: for the function returned by [throttle]: the calls that reach
    [func] are, in order, some of the calls made; there are at most one
    more of them than timer expiries (between two executions the timer has
    fired); at most one timer is ever pending, and it is pending exactly
    while calls are being dropped; a call made while throttled changes
    nothing at all (it is dropped, not deferred), and the first call after
    an expiry is executed. *)
Theorem throttle_runs_leading_call_only (evs : list (event A)) :
  let st := run evs fresh in
  executed st `sublist_of` calls evs ∧
  length (executed st) ≤ S (expiries evs) ∧
  timers st = (if inThrottle st then 1 else 0) ∧
  (∀ a, inThrottle st = true → handle st (Call a) = st) ∧
  (∀ a, inThrottle st = true →
        executed (run [Expire; Call a] st) = executed st ++ [a]).
Proof.
  intros st. subst st.
  destruct (Throttle_run_executed evs fresh) as (l & Hl & Hsub & Hlen).
  cbn in Hl, Hlen. rewrite Hl.
  assert (invariant (run evs fresh)) as Hinv
    by (by apply Throttle_run_invariant).
  split; [done|]. split; [lia|]. split; [exact Hinv|]. split.
  - intros a Ht. cbn. unfold call. by rewrite Ht.
  - intros a Ht. cbn. unfold expire. rewrite Hinv, Ht. cbn. by rewrite Hl.
Qed.

End Throttle_facts.

Section Debounce_facts.
Context {A : Type}.
Import Debounce.

Lemma Debounce_calls_only (l : list A) st :
  l ≠ [] →
  run (Call <$> l) st = mkState (last l) (executed st).
Proof.
  revert st. induction l as [|a l IH]; intros st Hne; [done|].
  destruct l as [|b l]; [done|].
  change (run (Call <$> a :: b :: l) st)
    with (run (Call <$> b :: l) (call a st)).
  by rewrite IH.
Qed.

Lemma Debounce_run_executed (evs : list (event A)) st :
  ∃ l, executed (run evs st) = executed st ++ l ∧
       l `sublist_of` (from_option (λ a, [a]) [] (timeout st) ++ calls evs) ∧
       length l ≤ expiries evs.
Proof.
  revert st. induction evs as [|ev evs IH]; intros st.
  - exists []. rewrite app_nil_r. cbn. split; [done|]. split; [|done].
    apply sublist_nil_l.
  - change (run (ev :: evs) st) with (run evs (handle st ev)).
    destruct (IH (handle st ev)) as (l & -> & Hsub & Hlen).
    destruct ev as [a|].
    + change (calls (Call a :: evs)) with (a :: calls evs).
      change (expiries (Call a :: evs)) with (expiries evs).
      cbn [handle call timeout executed from_option] in *.
      exists l. split; [done|]. split; [|done].
      destruct (timeout st); cbn; [by apply sublist_cons|done].
    + change (calls (Expire :: evs)) with (calls evs).
      change (expiries (@Expire A :: evs)) with (S (expiries evs)).
      cbn [handle] in *. unfold expire in *.
      destruct (timeout st) as [a|] eqn:E;
        cbn [timeout executed from_option] in *.
      * exists (a :: l). rewrite <- app_assoc.
        split; [done|]. split; [by apply sublist_skip|cbn; lia].
      * exists l. rewrite E in Hsub. split; [done|]. split; [done|lia].
Qed.

(** X2: for the function returned by [debounce]: a burst of calls
    followed by the expiry of the timer runs [func] exactly once, with the
    arguments of the last call of the burst; calls alone never run [func];
    over any trace the executed calls are, in order, some of the calls made,
    and there are no more of them than timer expiries. *)
Theorem debounce_runs_last_call_of_burst :
  (∀ (l : list A) a st,
     run ((Call <$> l ++ [a]) ++ [Expire]) st
     = mkState None (executed st ++ [a])) ∧
  (∀ (l : list A) st, executed (run (Call <$> l) st) = executed st) ∧
  (∀ evs : list (event A),
     executed (run evs fresh) `sublist_of` calls evs ∧
     length (executed (run evs fresh)) ≤ expiries evs).
Proof.
  repeat apply conj.
  - intros l a st. unfold run. rewrite foldl_app.
    fold (run (Call <$> l ++ [a]) st).
    rewrite Debounce_calls_only by (by destruct l).
    cbn. unfold expire. cbn. by rewrite last_snoc.
  - intros l st. destruct l as [|a l]; [done|].
    by rewrite Debounce_calls_only.
  - intros evs.
    by destruct (Debounce_run_executed evs fresh) as (l & -> & ? & ?).
Qed.

End Debounce_facts.

Section DOMCache_facts.
Import DOMCache.






End DOMCache_facts.

Lemma throttle_runs_leading_call_only_witness :
  Throttle.inThrottle (Throttle.run [Throttle.Call 1; Throttle.Call 2]
                                    Throttle.fresh) = true ∧
  Throttle.handle (Throttle.run [Throttle.Call 1; Throttle.Call 2]
                                Throttle.fresh) (Throttle.Call 3)
  = Throttle.run [Throttle.Call 1; Throttle.Call 2] Throttle.fresh ∧
  Throttle.executed
    (Throttle.run [Throttle.Expire; Throttle.Call 3]
       (Throttle.run [Throttle.Call 1; Throttle.Call 2] Throttle.fresh))
  = [1; 3].
Proof.
  destruct (throttle_runs_leading_call_only
              [Throttle.Call 1; Throttle.Call 2]) as (_ & _ & _ & H1 & H2).
  split; [reflexivity|]. split; [apply (H1 3 eq_refl)|apply (H2 3 eq_refl)].
Defined.

Section ThemeButtons_facts.
Import ThemeManager ThemeButtons.

Lemma setTheme_shown theme st : shown (setTheme theme st).
Proof. unfold shown. cbn. by destruct (String.eqb theme "dark"). Qed.

Lemma flip_range theme : flip theme = "light" ∨ flip theme = "dark".
Proof. unfold flip. destruct (String.eqb theme "dark"); auto. Qed.

Lemma toggles_cons ev evs :
  toggles (ev :: evs) = if toggling ev then S (toggles evs) else toggles evs.
Proof. unfold toggles. cbn. by destruct (toggling ev). Qed.

(** What every reachable state satisfies. *)
Lemma ThemeButtons_handle st ev :
  agreed st →
  handle st ev =
    if toggling ev then toggleTheme st else st.
Proof.
  intros (Hne & _ & Hs). destruct ev as [|key|m]; cbn; [done|done|].
  unfold onSystemChange, getStoredTheme. rewrite Hs. cbn.
  by rewrite (proj2 (String.eqb_neq _ _) Hne).
Qed.

Lemma toggleTheme_agreed st : agreed (toggleTheme st).
Proof.
  unfold agreed. cbn. split; [|done].
  by destruct (String.eqb (currentTheme st) "dark").
Qed.

Lemma ThemeButtons_run evs st :
  agreed st → shown st →
  last (announcements st)
    = Some ("Switched to " ++ currentTheme st ++ " theme")%string →
  let st' := run evs st in
  agreed st' ∧ shown st' ∧
  last (announcements st')
    = Some ("Switched to " ++ currentTheme st' ++ " theme")%string ∧
  length (announcements st') = length (announcements st) + toggles evs ∧
  currentTheme st' = Nat.iter (toggles evs) flip (currentTheme st).
Proof.
  revert st. induction evs as [|ev evs IH]; intros st Hag Hsh Hlast.
  - cbn. repeat split; try done; try apply Hag; try apply Hsh; try lia.
  - change (run (ev :: evs) st) with (run evs (handle st ev)).
    rewrite toggles_cons, (ThemeButtons_handle st ev Hag).
    destruct (toggling ev).
    + destruct (IH (toggleTheme st)) as (H1 & H2 & H3 & H4 & H5).
      * apply toggleTheme_agreed.
      * apply setTheme_shown.
      * cbn. by rewrite last_snoc.
      * cbn zeta. repeat split; try done; try apply H1; try apply H2.
        -- rewrite H4. cbn. rewrite length_app. cbn. lia.
        -- rewrite H5. by rewrite Nat.iter_succ_r.
    + by apply IH.
Qed.

(** X4: in every state the theme manager reaches after construction
    (clicks and key presses on the toggle buttons, OS changes), the buttons
    show the current theme: [aria-pressed] is true exactly for "dark", the
    icon is the sun for "dark" and the moon otherwise, and the title offers
    the other theme; the last announcement for screen readers names the
    current theme, and there has been one announcement for the construction
    plus one per toggle, OS changes adding none. *)
Theorem theme_buttons_show_current_theme stored prefersDark evs :
  let st := run evs (construct stored prefersDark) in
  shown st ∧
  last (announcements st)
    = Some ("Switched to " ++ currentTheme st ++ " theme")%string ∧
  length (announcements st) = S (toggles evs).
Proof.
  intros st. subst st.
  destruct (ThemeButtons_run evs (construct stored prefersDark))
    as (_ & H2 & H3 & H4 & _).
  - apply construct_agreed.
  - unfold shown, construct. cbn.
    by destruct (String.eqb (js_or stored (getSystemTheme prefersDark)) "dark").
  - done.
  - repeat split; try apply H2; done.
Qed.

(** X5: the theme after any sequence of events is the initial theme (the
    stored value if non-empty, else the OS-derived one) flipped once per
    toggling event (click, Enter or Space on a button): OS changes and other
    keys never change it; the applied attribute follows it; and after at
    least one toggle it is "light" or "dark" whatever was stored. *)
Theorem theme_is_initial_flipped_per_toggle stored prefersDark evs :
  let st := run evs (construct stored prefersDark) in
  currentTheme st
    = Nat.iter (toggles evs) flip (js_or stored (getSystemTheme prefersDark)) ∧
  dataTheme st = Some (currentTheme st) ∧
  (1 ≤ toggles evs → currentTheme st = "light" ∨ currentTheme st = "dark") ∧
  (∀ key, key ≠ "Enter" → key ≠ " " → handle st (Keydown key) = st) ∧
  (∀ m, handle st (SystemChanged m) = st).
Proof.
  intros st. subst st.
  destruct (ThemeButtons_run evs (construct stored prefersDark))
    as (H1 & _ & _ & _ & H5).
  - apply construct_agreed.
  - unfold shown, construct. cbn.
    by destruct (String.eqb (js_or stored (getSystemTheme prefersDark)) "dark").
  - done.
  - split; [exact H5|]. split; [apply H1|]. split; [|split].
    + rewrite H5. intros Hn. destruct (toggles evs) as [|n]; [lia|].
      cbn. apply flip_range.
    + intros key He Hs. cbn. unfold onKeydown.
      by rewrite (proj2 (String.eqb_neq _ _) He),
                 (proj2 (String.eqb_neq _ _) Hs).
    + intros m. by rewrite (ThemeButtons_handle _ _ H1).
Qed.

Lemma theme_is_initial_flipped_per_toggle_witness :
  currentTheme (run [Click; Keydown "a"; SystemChanged true; Keydown " "]
                    (construct (Some "blue") false)) = "light" ∧
  handle (construct None true) (Keydown "Tab") = construct None true.
Proof.
  destruct (theme_is_initial_flipped_per_toggle (Some "blue") false
              [Click; Keydown "a"; SystemChanged true; Keydown " "])
    as (H1 & _).
  destruct (theme_is_initial_flipped_per_toggle None true [])
    as (_ & _ & _ & H4 & _).
  split; [exact H1|]. apply H4; discriminate.
Defined.

End ThemeButtons_facts.

Section NavigationEvents_facts.
Import NavigationManager NavigationEvents.

Lemma toggleMobileMenu_synced st : synced (toggleMobileMenu st).
Proof. unfold synced. cbn. by destruct (isMenuOpen st). Qed.

Lemma closeMobileMenu_synced st : synced st → synced (closeMobileMenu st).
Proof.
  intros H. unfold closeMobileMenu.
  destruct (isMenuOpen st); [apply toggleMobileMenu_synced|done].
Qed.

Lemma handle_synced st ev : synced st → synced (handle st ev).
Proof.
  intros H. destruct ev as [target|key|key|width]; cbn.
  - unfold click, onDocumentClick, onToggleClick.
    destruct target; repeat case_match;
      auto using toggleMobileMenu_synced, closeMobileMenu_synced.
  - unfold onDocumentKeydown, onToggleKeydown.
    repeat case_match;
      auto using toggleMobileMenu_synced, closeMobileMenu_synced.
  - unfold onDocumentKeydown.
    repeat case_match; auto using closeMobileMenu_synced.
  - unfold handleResize. repeat case_match; auto using closeMobileMenu_synced.
Qed.

Lemma handle_absent st ev :
  navPresent st = false → isMenuOpen st = false → handle st ev = st.
Proof.
  intros Hp Ho. destruct ev as [target|key|key|width]; cbn.
  - unfold click, onDocumentClick, onToggleClick. rewrite Hp.
    by destruct target; rewrite ?Hp.
  - unfold onDocumentKeydown, onToggleKeydown. by rewrite Hp, Hp.
  - unfold onDocumentKeydown. by rewrite Hp.
  - unfold handleResize. by rewrite Ho, andb_false_r.
Qed.

(** X6: once the classes and attributes of the menu agree with
    [isMenuOpen] (as they do after any [toggleMobileMenu], whatever the
    markup said before) they agree after every further click, key press and
    resize: the [active] classes, [aria-expanded] and the scroll lock equal
    the flag and [aria-hidden] its negation.  A click on the toggle always
    flips the menu (the document's click listener, reached by the same click,
    does not undo it), Enter and Space on the toggle do the same, and when
    the toggle or the menu is missing from the page no event ever opens
    anything. *)
Theorem menu_dom_follows_flag :
  (∀ st, synced (toggleMobileMenu st)) ∧
  (∀ st evs, synced st → synced (run evs st)) ∧
  (∀ st, navPresent st = true →
         isMenuOpen (handle st (Click inToggle)) = negb (isMenuOpen st) ∧
         isMenuOpen (handle st (ToggleKeydown "Enter")) = negb (isMenuOpen st) ∧
         isMenuOpen (handle st (ToggleKeydown " ")) = negb (isMenuOpen st)) ∧
  (∀ evs, run evs (construct false) = construct false).
Proof.
  split; [apply toggleMobileMenu_synced|]. split; [|split].
  - intros st evs. revert st.
    induction evs as [|ev evs IH]; intros st H; cbn; [done|].
    by apply IH, handle_synced.
  - intros st Hp. cbn. unfold click, onDocumentClick, onToggleClick,
      onDocumentKeydown, onToggleKeydown. rewrite Hp. cbn. rewrite Hp. cbn.
    rewrite andb_false_r. by cbn.
  - intros evs. induction evs as [|ev evs IH]; [done|].
    change (run (ev :: evs) (construct false))
      with (run evs (handle (construct false) ev)).
    by rewrite handle_absent.
Qed.

Lemma menu_dom_follows_flag_witness :
  synced (run [Click inToggle; DocumentKeydown "Escape"; Resized 1200]
              (toggleMobileMenu (construct true))) ∧
  isMenuOpen (handle (construct true) (Click inToggle)) = true.
Proof.
  destruct menu_dom_follows_flag as (H1 & H2 & H3 & _).
  split.
  - apply H2, H1.
  - destruct (H3 (construct true) eq_refl) as (H & _). exact H.
Defined.

(** X7: whenever [handleNavClick] schedules the smooth scroll, its delay
    is 0 ms and the menu is already closed: the delay is chosen from
    [isMenuOpen] after [closeMobileMenu] has run, so the 300 ms branch is
    never taken, whether the menu was open or not.  The scroll is scheduled
    (and the default navigation prevented) exactly for a link whose [href]
    starts with [#] and names an element the document finds; in every other
    case the state is untouched and the default navigation goes ahead. *)
Theorem nav_click_scroll_is_never_delayed href query st :
  let st' := (handleNavClick href query st).1 in
  let eff := (handleNavClick href query st).2 in
  (∀ delay target,
     scheduled eff = Some (delay, target) →
     delay = 0%Z ∧ isMenuOpen st' = false ∧ defaultPrevented eff = true ∧
     query = found target ∧
     ∃ h, href = Some h ∧ startsWithHash h = true) ∧
  (scheduled eff = None → st' = st ∧ defaultPrevented eff = false) ∧
  (∀ h target, href = Some h → startsWithHash h = true →
     query = found target →
     scheduled eff = Some (0%Z, target)).
Proof.
  intros st' eff. subst st' eff. unfold handleNavClick.
  destruct href as [h|]; cbn.
  - destruct (String.eqb h "") eqn:He; destruct (startsWithHash h) eqn:Hh;
      destruct query as [t| |]; cbn; rewrite ?closeMobileMenu_closed;
      (split; [|split]); intros; simplify_eq/=; eauto 10; try congruence;
      try (apply String.eqb_eq in He; subst; discriminate).
  - split; [|split]; intros; simplify_eq/=; eauto.
Qed.

Lemma nav_click_scroll_is_never_delayed_witness :
  (handleNavClick (Some "#about") (found 3)
                  (toggleMobileMenu (construct true))).2
  = mkEffect true (Some (0%Z, 3)) false ∧
  isMenuOpen (handleNavClick (Some "#about") (found 3)
                             (toggleMobileMenu (construct true))).1 = false.
Proof.
  pose proof (nav_click_scroll_is_never_delayed (Some "#about") (found 3)
                (toggleMobileMenu (construct true))) as (H1 & _ & _).
  destruct (H1 0%Z 3 eq_refl) as (_ & H & _).
  split; [reflexivity|exact H].
Defined.

End NavigationEvents_facts.

Section ActiveLink_facts.
Import ActiveLink.

Lemma strictEq_refl a : strictEq a a = true.
Proof. destruct a; cbn; [apply String.eqb_refl|done]. Qed.

Lemma strictEq_eq a b : strictEq a b = true ↔ a = b.
Proof.
  destruct a, b; cbn; try (split; congruence).
  rewrite String.eqb_eq. split; congruence.
Qed.

Lemma findCurrent_fold_none scrollPos (l : list section) acc :
  (∀ s, s ∈ l → contains scrollPos s = false) →
  foldl (λ currentSection s,
           if contains scrollPos s then Some (id s) else currentSection)
        acc l = acc.
Proof.
  revert acc. induction l as [|s l IH]; intros acc H; [done|].
  cbn. rewrite (H s) by apply list_elem_of_here.
  apply IH. intros s' Hs'. by apply H, list_elem_of_further.
Qed.

(** X8: [updateActiveLink] (positions in whole pixels): when several
    sections contain the probe point [scrollY + 100] the last one in
    document order is taken; when none does, or the one found has an empty
    id, nothing changes, so the previous highlight stays; when the active
    section changes, the links marked [active] are exactly those whose [href]
    is [#] followed by the new id, with [aria-current] "page" on them and
    "false" on the others; and running it again at the same scroll position
    changes nothing. *)
Theorem active_link_follows_last_matching_section sections scrollY st :
  let st' := updateActiveLink sections scrollY st in
  let scrollPos := (scrollY + 100)%Z in
  (∀ l1 s l2,
     sections = l1 ++ s :: l2 →
     contains scrollPos s = true →
     (∀ s', s' ∈ l2 → contains scrollPos s' = false) →
     findCurrent sections scrollPos = Some (id s)) ∧
  ((∀ s, s ∈ sections → contains scrollPos s = false) → st' = st) ∧
  (findCurrent sections scrollPos = Some ""%string → st' = st) ∧
  (activeSection st' ≠ activeSection st →
     ∃ sid, findCurrent sections scrollPos = Some sid ∧
            activeSection st' = Some sid ∧
            length (navLinks st') = length (navLinks st) ∧
            ∀ l, l ∈ navLinks st' →
                 active l = strictEq (href l) (Some ("#" ++ sid)%string) ∧
                 ariaCurrent l = Some (if active l then "page" else "false")%string) ∧
  updateActiveLink sections scrollY st' = st'.
Proof.
  intros st' scrollPos. subst st'. unfold updateActiveLink. fold scrollPos.
  split; [|split; [|split; [|split]]].
  - intros l1 s l2 -> Hs Hl2. unfold findCurrent.
    rewrite foldl_app. cbn. rewrite Hs. by apply findCurrent_fold_none.
  - intros Hnone. unfold findCurrent.
    by rewrite findCurrent_fold_none.
  - by intros ->.
  - destruct (truthy (findCurrent sections scrollPos) &&
              negb (strictEq (findCurrent sections scrollPos)
                             (activeSection st))) eqn:C; [|done].
    apply andb_true_iff in C as [Ht _].
    destruct (findCurrent sections scrollPos) as [sid|] eqn:E; [|done].
    intros _. exists sid. split; [done|]. split; [done|].
    split; [apply length_map|].
    intros l Hl. apply list_elem_of_fmap in Hl as (l0 & -> & _). by cbn.
  - destruct (truthy (findCurrent sections scrollPos) &&
              negb (strictEq (findCurrent sections scrollPos)
                             (activeSection st))) eqn:E.
    + cbn. by rewrite strictEq_refl, andb_false_r.
    + by rewrite E.
Qed.

Lemma active_link_follows_last_matching_section_witness :
  let sections := [mkSection "home" 0 600; mkSection "about" 500 700;
                   mkSection "contact" 1200 400] in
  let st := mkState None [mkLink (Some "#home") true None;
                          mkLink (Some "#about") false None] in
  findCurrent sections 550 = Some "about"%string ∧
  activeSection (updateActiveLink sections 450 st) = Some "about"%string ∧
  updateActiveLink sections 5000 st = st.
Proof.
  intros sections st.
  destruct (active_link_follows_last_matching_section sections 450 st)
    as (H1 & _ & _ & H4 & _).
  destruct (active_link_follows_last_matching_section sections 5000 st)
    as (_ & H2 & _).
  split; [|split].
  - apply (H1 [mkSection "home" 0 600] (mkSection "about" 500 700)
              [mkSection "contact" 1200 400] eq_refl eq_refl).
    intros s' ->%list_elem_of_singleton. reflexivity.
  - destruct H4 as (sid & Hf & Ha & _); [discriminate|].
    rewrite Ha, <- Hf. reflexivity.
  - apply H2. intros s Hs.
    repeat (apply elem_of_cons in Hs as [->|Hs]; [reflexivity|]).
    by apply elem_of_nil in Hs.
Defined.

End ActiveLink_facts.

Section TypingAnimation_cycle.
Import TypingAnimation.

Lemma substring_full t : String.substring 0 (String.length t) t = t.
Proof. induction t as [|c t IH]; cbn; [done|]. by rewrite IH. Qed.

Lemma substring_empty t : String.substring 0 0 t = ""%string.
Proof. by destruct t. Qed.

(** One tick while typing, with [c] characters shown so far. *)
Lemma type_typing st t c :
  texts st !! currentTextIndex st = Some t →
  isDeleting st = false →
  currentCharIndex st = Z.of_nat c →
  type st =
    mkState (texts st) (currentTextIndex st) (Z.of_nat (S c))
            (S c =? String.length t) ((S c =? String.length t) || isPaused st)
            (String.substring 0 (S c) t)
            (Some (if S c =? String.length t
                   then CONFIG.typingPause else CONFIG.typingSpeed)).
Proof.
  intros Ht Hd Hc. unfold type. rewrite Ht, Hd, Hc. cbn [negb andb].
  unfold substring0.
  replace (Z.of_nat c + 1)%Z with (Z.of_nat (S c)) by lia.
  rewrite Nat2Z.id.
  destruct (Nat.eqb_spec (S c) (String.length t)) as [E|E].
  - rewrite E, Z.eqb_refl. done.
  - destruct (Z.eqb_spec (Z.of_nat (S c)) (Z.of_nat (String.length t)));
      [lia|done].
Qed.

(** One tick while deleting, with [S c] characters shown so far. *)
Lemma type_deleting st t c :
  texts st !! currentTextIndex st = Some t →
  isDeleting st = true →
  currentCharIndex st = Z.of_nat (S c) →
  type st =
    mkState (texts st)
            (if c =? 0 then (currentTextIndex st + 1) mod length (texts st)
             else currentTextIndex st)
            (Z.of_nat c) (negb (c =? 0)) (isPaused st)
            (String.substring 0 c t) (Some CONFIG.typingDeleteSpeed).
Proof.
  intros Ht Hd Hc. unfold type. rewrite Ht, Hd, Hc. cbn [negb andb].
  unfold substring0.
  replace (Z.of_nat (S c) - 1)%Z with (Z.of_nat c) by lia.
  rewrite Nat2Z.id.
  destruct c as [|c]; [done|].
  destruct (Z.eqb_spec (Z.of_nat (S c)) 0); [lia|done].
Qed.

Lemma typing_phase st t k :
  texts st !! currentTextIndex st = Some t →
  isDeleting st = false →
  currentCharIndex st = 0%Z →
  1 ≤ k ≤ String.length t →
  Nat.iter k type st =
    mkState (texts st) (currentTextIndex st) (Z.of_nat k)
            (k =? String.length t) ((k =? String.length t) || isPaused st)
            (String.substring 0 k t)
            (Some (if k =? String.length t
                   then CONFIG.typingPause else CONFIG.typingSpeed)).
Proof.
  intros Ht Hd Hc [Hk1 Hk2]. induction k as [|k IH]; [lia|].
  destruct k as [|k].
  - cbn [Nat.iter]. by apply (type_typing st t 0).
  - change (Nat.iter (S (S k)) type st) with (type (Nat.iter (S k) type st)).
    rewrite IH by lia.
    destruct (Nat.eqb_spec (S k) (String.length t)) as [E|E]; [lia|].
    by rewrite (type_typing _ t (S k)).
Qed.

Lemma deleting_phase st t j :
  texts st !! currentTextIndex st = Some t →
  isDeleting st = true →
  currentCharIndex st = Z.of_nat (String.length t) →
  1 ≤ j ≤ String.length t →
  Nat.iter j type st =
    mkState (texts st)
            (if j =? String.length t
             then (currentTextIndex st + 1) mod length (texts st)
             else currentTextIndex st)
            (Z.of_nat (String.length t - j))
            (negb (j =? String.length t)) (isPaused st)
            (String.substring 0 (String.length t - j) t)
            (Some CONFIG.typingDeleteSpeed).
Proof.
  intros Ht Hd Hc [Hj1 Hj2]. induction j as [|j IH]; [lia|].
  destruct j as [|j].
  - change (Nat.iter 1 type st) with (type st).
    rewrite (type_deleting st t (String.length t - 1)); [|done|done|].
    + destruct (Nat.eqb_spec (String.length t - 1) 0),
               (Nat.eqb_spec 1 (String.length t)); try lia; done.
    + rewrite Hc. f_equal. lia.
  - change (Nat.iter (S (S j)) type st) with (type (Nat.iter (S j) type st)).
    rewrite IH by lia.
    destruct (Nat.eqb_spec (S j) (String.length t)) as [E|E]; [lia|].
    rewrite (type_deleting _ t (String.length t - S (S j)));
      cbn [texts currentTextIndex currentCharIndex isDeleting isPaused
           negb]; [|done|done|f_equal; lia].
    destruct (Nat.eqb_spec (String.length t - S (S j)) 0),
             (Nat.eqb_spec (S (S j)) (String.length t)); try lia; done.
Qed.

(** X9: for any phrase list, from the start of a non-empty phrase [t] of
    length [n] (character index 0, not deleting): tick [k] of the first [n]
    shows the first [k] characters, at typing speed, and tick [n] shows the
    whole phrase, sets [isDeleting] and [isPaused] and waits the pause; tick
    [j] of the next [n] shows the first [n - j] characters at delete speed,
    and tick [n] of them shows the empty text at the start of the next
    phrase, the phrase index having advanced cyclically.  So a list of
    non-empty phrases is typed and deleted phrase after phrase for ever. *)
Theorem typing_types_pauses_deletes_advances st t :
  texts st !! currentTextIndex st = Some t →
  t ≠ ""%string →
  isDeleting st = false →
  currentCharIndex st = 0%Z →
  let n := String.length t in
  (∀ k, 1 ≤ k ≤ n →
     Nat.iter k type st =
       mkState (texts st) (currentTextIndex st) (Z.of_nat k)
               (k =? n) ((k =? n) || isPaused st)
               (String.substring 0 k t)
               (Some (if k =? n then CONFIG.typingPause
                      else CONFIG.typingSpeed))) ∧
  textContent (Nat.iter n type st) = t ∧
  (∀ j, 1 ≤ j ≤ n →
     Nat.iter (j + n) type st =
       mkState (texts st)
               (if j =? n then (currentTextIndex st + 1) mod length (texts st)
                else currentTextIndex st)
               (Z.of_nat (n - j)) (negb (j =? n)) true
               (String.substring 0 (n - j) t)
               (Some CONFIG.typingDeleteSpeed)) ∧
  Nat.iter (n + n) type st =
    mkState (texts st) ((currentTextIndex st + 1) mod length (texts st))
            0%Z false true ""%string (Some CONFIG.typingDeleteSpeed).
Proof.
  intros Ht Hne Hd Hc n.
  assert (1 ≤ n) as Hn by (subst n; destruct t; [done|cbn; lia]).
  assert (∀ j, 1 ≤ j ≤ n →
     Nat.iter (j + n) type st =
       mkState (texts st)
               (if j =? n then (currentTextIndex st + 1) mod length (texts st)
                else currentTextIndex st)
               (Z.of_nat (n - j)) (negb (j =? n)) true
               (String.substring 0 (n - j) t)
               (Some CONFIG.typingDeleteSpeed)) as Hdel.
  { intros j Hj. rewrite Nat.iter_add.
    rewrite (typing_phase st t n) by (done || lia).
    fold n. rewrite Nat.eqb_refl. cbn [orb].
    by rewrite (deleting_phase _ t j). }
  split; [|split; [|split]].
  - intros k Hk. by apply typing_phase.
  - rewrite (typing_phase st t n) by (done || lia). cbn.
    apply substring_full.
  - exact Hdel.
  - rewrite (Hdel n) by lia.
    rewrite Nat.eqb_refl, Nat.sub_diag. cbn [negb]. f_equal.
    apply substring_empty.
Qed.

Lemma typing_types_pauses_deletes_advances_witness :
  let st := mkState ["Hi"; "Rocq"]%string 1 0 false false ""%string None in
  textContent (Nat.iter 4 type st) = "Rocq"%string ∧
  Nat.iter 8 type st
  = mkState ["Hi"; "Rocq"]%string 0 0 false true ""%string
            (Some CONFIG.typingDeleteSpeed).
Proof.
  intros st.
  destruct (typing_types_pauses_deletes_advances st "Rocq" eq_refl
              ltac:(discriminate) eq_refl eq_refl) as (_ & H2 & _ & H4).
  split; [exact H2|exact H4].
Defined.

(** X10: the edges of the typing effect.  An empty phrase is never
    completed: from its start every tick leaves the text empty and the phrase
    index where it is, and only the character index grows, so the phrases
    after it are never shown.  With an empty phrase list the first call of
    [type()] throws before it displays or schedules anything: the element
    keeps its text for ever. *)
Theorem typing_stalls_on_empty_phrase :
  (∀ st k,
     texts st !! currentTextIndex st = Some ""%string →
     isDeleting st = false →
     (0 ≤ currentCharIndex st)%Z →
     1 ≤ k →
     Nat.iter k type st =
       mkState (texts st) (currentTextIndex st)
               (currentCharIndex st + Z.of_nat k) false (isPaused st)
               ""%string (Some CONFIG.typingSpeed)) ∧
  (∀ initial evs,
     textContent (run evs (construct (Some []) initial false)) = initial ∧
     pending (run evs (construct (Some []) initial false)) = None).
Proof.
  split.
  - intros st k Ht Hd Hc Hk. induction k as [|k IH]; [lia|].
    assert (∀ s, texts s !! currentTextIndex s = Some ""%string →
                 isDeleting s = false → (0 ≤ currentCharIndex s)%Z →
                 type s = mkState (texts s) (currentTextIndex s)
                            (currentCharIndex s + 1) false (isPaused s)
                            ""%string (Some CONFIG.typingSpeed)) as Hstep.
    { intros s Hs Hds Hcs. unfold type. rewrite Hs, Hds. cbn.
      destruct (Z.eqb_spec (currentCharIndex s + 1) (Z.of_nat 0)); [lia|].
      by destruct (Z.to_nat _). }
    destruct k as [|k].
    + change (Nat.iter 1 type st) with (type st). rewrite Hstep by done.
      f_equal.
    + change (Nat.iter (S (S k)) type st) with (type (Nat.iter (S k) type st)).
      rewrite IH by lia. rewrite Hstep; cbn; [|done|done|lia].
      f_equal. lia.
  - intros initial evs.
    by destruct (run_no_timer evs (construct (Some []) initial false) eq_refl)
      as (-> & _ & ->).
Qed.

Lemma typing_stalls_on_empty_phrase_witness :
  Nat.iter 5 type (construct (Some [""; "never shown"]%string) "x" false)
  = mkState [""; "never shown"]%string 0 6 false false ""%string
            (Some CONFIG.typingSpeed).
Proof.
  destruct typing_stalls_on_empty_phrase as (H & _).
  assert (0 ≤ currentCharIndex
                (construct (Some [""; "never shown"]%string) "x" false))%Z
    as Hc by (by vm_compute).
  rewrite (H (construct (Some [""; "never shown"]%string) "x" false) 5
             eq_refl eq_refl Hc ltac:(lia)).
  reflexivity.
Defined.

End TypingAnimation_cycle.

Section StatsCounter_exactly.
Import StatsCounter.

Lemma StatsCounter_onEntry_shape elements io st e :
  StatsCounter_shape elements io st →
  StatsCounter_shape elements io (onEntry st e) ∧
  ∀ x, x ∈ started (onEntry st e) ↔ x ∈ started st ∨ (e.1 = x ∧ e.2 = true).
Proof.
  intros (Hm & Hel & Hvis & Htg). unfold onEntry.
  destruct e.2 eqn:E2; cbn [andb].
  - destruct (decide (e.1 ∈ animatedStats st)) as [Hin|Hout].
    + rewrite (bool_decide_eq_true_2 _ Hin). cbn.
      split; [done|]. intros x. split; [by left|].
      intros [?|[ <- _]]; [done|]. by apply Hvis.
    + rewrite (bool_decide_eq_false_2 _ Hout). cbn. split.
      * split; [done|]. split; [done|]. split; cbn.
        -- intros x. rewrite elem_of_union, elem_of_singleton, elem_of_app,
             list_elem_of_singleton, Hvis. tauto.
        -- intros Hio x. rewrite elem_of_difference, elem_of_singleton,
             elem_of_app, list_elem_of_singleton, (Htg Hio). tauto.
      * intros x. rewrite elem_of_app, list_elem_of_singleton.
        split; [intros [?| ->]; auto|intros [?|[ <- _]]; auto].
  - split; [done|]. intros x. split; [by left|]. by intros [?|[_ ?]].
Qed.

Lemma StatsCounter_callback_shape elements io entries st :
  StatsCounter_shape elements io st →
  StatsCounter_shape elements io (callback entries st) ∧
  ∀ x, x ∈ started (callback entries st) ↔
       x ∈ started st ∨ (x, true) ∈ entries.
Proof.
  unfold callback. revert st.
  induction entries as [|e es IH]; intros st H.
  - cbn. split; [done|]. intros x. split; [by left|].
    by intros [?|?%elem_of_nil].
  - cbn [foldl].
    destruct (StatsCounter_onEntry_shape elements io st e H) as [H1 H2].
    destruct (IH _ H1) as [H3 H4]. split; [done|].
    intros x. rewrite H4, H2, elem_of_cons. destruct e as [t b]. cbn.
    split.
    + intros [[?|[-> ->]]|?]; auto.
    + intros [?|[Heq|?]]; auto. injection Heq as -> ->. auto.
Qed.

Lemma StatsCounter_scroll_fold elements inViewport (l : list nat) st :
  StatsCounter_shape elements false st →
  let st' :=
    foldl (λ st element,
             if inViewport element
                && negb (bool_decide (element ∈ animatedStats st))
             then mkState (mode st) (statElements st)
                          ({[element]} ∪ animatedStats st)
                          (targets st) (started st ++ [element])
             else st) st l in
  StatsCounter_shape elements false st' ∧
  ∀ x, x ∈ started st' ↔ x ∈ started st ∨ (x ∈ l ∧ inViewport x = true).
Proof.
  induction l as [|el els IH] using rev_ind; intros H.
  - cbn. split; [done|]. intros x. split; [by left|].
    by intros [?|[?%elem_of_nil _]].
  - cbn zeta. rewrite foldl_app. cbn [foldl].
    destruct (IH H) as [H1 H2]. clear IH. cbn zeta in H1, H2.
    set (st1 := foldl _ st els) in *.
    destruct H1 as (Hm & Hels & Hvis & Htg).
    destruct (inViewport el) eqn:Ev; cbn [andb].
    + destruct (decide (el ∈ animatedStats st1)) as [Hin|Hout].
      * rewrite (bool_decide_eq_true_2 _ Hin). cbn. split; [done|].
        intros x. rewrite H2, elem_of_app, list_elem_of_singleton.
        split; [intros [?|[? ?]]; auto|].
        intros [?|[[?| ->] ?]]; auto. apply H2. by apply Hvis.
      * rewrite (bool_decide_eq_false_2 _ Hout). cbn. split.
        -- split; [done|]. split; [done|]. split; [|done]. cbn.
           intros x. rewrite elem_of_union, elem_of_singleton, elem_of_app,
             list_elem_of_singleton, Hvis. tauto.
        -- intros x. rewrite !elem_of_app, !list_elem_of_singleton, H2.
           split; [intros [[?|[? ?]]| ->]; auto|].
           intros [?|[[?| ->] ?]]; auto.
    + cbn. split; [done|]. intros x. rewrite H2, elem_of_app,
        list_elem_of_singleton.
      split; [intros [?|[? ?]]; auto|].
      intros [?|[[?| ->] ?]]; auto. congruence.
Qed.

Lemma StatsCounter_handleScroll_shape elements inViewport st :
  StatsCounter_shape elements false st →
  StatsCounter_shape elements false (handleScroll inViewport st) ∧
  ∀ x, x ∈ started (handleScroll inViewport st) ↔
       x ∈ started st ∨ (x ∈ elements ∧ inViewport x = true).
Proof.
  intros H. pose proof H as (_ & Hel & _). unfold handleScroll.
  rewrite Hel. by apply StatsCounter_scroll_fold.
Qed.

Lemma StatsCounter_construct_shape elements io :
  StatsCounter_shape elements io (construct elements false io).
Proof.
  assert (∀ e : nat, e ∈ (∅ : gset nat) ↔ e ∈ @nil nat) as Hempty.
  { intros e. split; [by intros ?%elem_of_empty|by intros ?%elem_of_nil]. }
  unfold construct, init. destruct io; cbn.
  - split; [done|]. split; [done|]. split; [exact Hempty|]. cbn.
    intros _ e. rewrite elem_of_list_to_set. split; [|by intros [? _]].
    intros He. split; [done|]. by intros ?%elem_of_nil.
  - split; [done|]. split; [done|]. split; [exact Hempty|]. done.
Qed.

Lemma StatsCounter_run_shape elements io evs :
  StatsCounter_shape elements io (run evs (construct elements false io)) ∧
  ∀ x, x ∈ started (run evs (construct elements false io)) ↔
       x ∈ elements ∧ ∃ ev, ev ∈ evs ∧ StatsCounter_seen io x ev.
Proof.
  induction evs as [|ev evs IH] using rev_ind.
  - cbn. split; [apply StatsCounter_construct_shape|].
    intros x. split.
    + unfold construct, init. destruct io; cbn; by intros ?%elem_of_nil.
    + by intros [_ (ev & ?%elem_of_nil & _)].
  - unfold run in *. rewrite foldl_app. cbn [foldl].
    destruct IH as [Hsh IH].
    set (st := foldl handle (construct elements false io) evs) in *.
    pose proof Hsh as (Hm & Hel & Hvis & Htg).
    assert (∀ x, (x ∈ elements ∧ ∃ ev0, ev0 ∈ evs ++ [ev] ∧
                                        StatsCounter_seen io x ev0) ↔
                 x ∈ started st ∨ (x ∈ elements ∧ StatsCounter_seen io x ev))
      as Hsplit.
    { intros x. rewrite IH. split.
      - intros [Hx (ev0 & [Hin| ->%list_elem_of_singleton]%elem_of_app & Hs)];
          eauto.
      - intros [[Hx (ev0 & Hin & Hs)]|[Hx Hs]].
        + split; [done|]. exists ev0. split; [|done]. apply elem_of_app; auto.
        + split; [done|]. exists ev. split; [|done].
          apply elem_of_app. right. apply list_elem_of_here. }
    unfold handle. rewrite Hm.
    destruct ev as [entries|inViewport]; destruct io; cbn [StatsCounter_seen] in *.
    + destruct (StatsCounter_callback_shape elements true
                  (reported (targets st) entries) st Hsh) as [H1 H2].
      split; [done|]. intros x. rewrite H2, Hsplit.
      unfold reported. rewrite list_elem_of_filter. cbn.
      rewrite (Htg eq_refl).
      destruct (decide (x ∈ started st)); tauto.
    + split; [done|]. intros x. rewrite Hsplit. split; [by left|].
      intros [?|[_ [? _]]]; done.
    + split; [done|]. intros x. rewrite Hsplit. split; [by left|].
      intros [?|[_ [? _]]]; done.
    + destruct (StatsCounter_handleScroll_shape elements inViewport st Hsh)
        as [H1 H2].
      split; [done|]. intros x. rewrite H2, Hsplit. tauto.
Qed.

(** X11: StatsCounter starts the counter of an element exactly when the
    element is one of the stat elements and some event of the trace reported
    it visible (an intersecting entry on the observer strategy, a scroll tick
    with the element in the viewport on the polling strategy): no element is
    started without having been seen, every stat element that is seen is
    started, and (with reduced motion) nothing is ever started. *)
Theorem stats_counter_starts_exactly_the_seen_elements elements io evs :
  (∀ x, x ∈ started (run evs (construct elements false io)) ↔
        x ∈ elements ∧ ∃ ev, ev ∈ evs ∧ StatsCounter_seen io x ev) ∧
  started (run evs (construct elements true io)) = [].
Proof.
  split; [apply StatsCounter_run_shape|].
  unfold construct, init.
  set (st := mkState _ _ _ _ _).
  assert (mode st = inactive ∧ started st = []) as H by done.
  clearbody st. revert st H.
  induction evs as [|ev evs IH]; intros st [Hm Hs]; [done|].
  change (run (ev :: evs) st) with (run evs (handle st ev)).
  apply IH. unfold handle. rewrite Hm. by destruct ev.
Qed.

End StatsCounter_exactly.


Lemma elem_of_delete_in {A} (l : list A) k x : x ∈ delete k l → x ∈ l.
Proof. intros H. eapply elem_of_sublist; [exact H|apply sublist_delete]. Qed.

Section SkillBars_widths_facts.
Import SkillBars.






End SkillBars_widths_facts.

Section ScrollAnimations_marks_facts.
Import ScrollAnimations.

Lemma animateElement_marks e st :
  (∀ x, x ∈ calls st → x ∈ animated st) →
  (∀ p, p ∈ timers st → ∃ x, x ∈ calls st ∧ p.2 ∈ staggered st x) →
  (∀ c, c ∈ animated st →
        c ∈ calls st ∨ ∃ x, x ∈ calls st ∧ c ∈ staggered st x) →
  let st' := animateElement e st in
  (∀ x, x ∈ calls st' → x ∈ animated st') ∧
  (∀ p, p ∈ timers st' → ∃ x, x ∈ calls st' ∧ p.2 ∈ staggered st' x) ∧
  (∀ c, c ∈ animated st' →
        c ∈ calls st' ∨ ∃ x, x ∈ calls st' ∧ c ∈ staggered st' x).
Proof.
  intros H2 H3 H4. cbn. split; [|split].
  - intros x [Hx| ->%list_elem_of_singleton]%elem_of_app.
    + apply elem_of_union. right. by apply H2.
    + apply elem_of_union. left. by apply elem_of_singleton.
  - intros p [Hp|Hp]%elem_of_app.
    + destruct (H3 p Hp) as (x & Hx & Hc). exists x.
      split; [|done]. apply elem_of_app. by left.
    + apply elem_of_lookup_imap in Hp as (i & c & -> & Hc). exists e.
      split; [apply elem_of_app; right; apply list_elem_of_here|].
      cbn. by eapply list_elem_of_lookup_2.
  - intros c [->%elem_of_singleton|Hc]%elem_of_union.
    + left. apply elem_of_app. right. apply list_elem_of_here.
    + destruct (H4 c Hc) as [?|(x & Hx & ?)].
      * left. apply elem_of_app. by left.
      * right. exists x. split; [|done]. apply elem_of_app. by left.
Qed.

Lemma animateElement_keeps_marks e st :
  ScrollAnimations_marks st → ScrollAnimations_marks (animateElement e st).
Proof.
  intros (H1 & H2 & H3 & H4).
  destruct (animateElement_marks e st H2 H3 H4) as (? & ? & ?).
  by split.
Qed.

Lemma onEntry_keeps_marks st e :
  ScrollAnimations_marks st → ScrollAnimations_marks (onEntry st e).
Proof.
  intros H. unfold onEntry. destruct e.2; [|done].
  destruct (animateElement_keeps_marks e.1 st H) as (H1 & H2 & H3 & H4).
  split; [|by split]. cbn in *. by rewrite H1.
Qed.

Lemma fire_keeps_marks k st :
  ScrollAnimations_marks st → ScrollAnimations_marks (fire k st).
Proof.
  intros (H1 & H2 & H3 & H4). unfold fire.
  destruct (timers st !! k) as [[d child]|] eqn:E; [|done].
  assert ((d, child) ∈ timers st) as Hin by (by eapply list_elem_of_lookup_2).
  split; [done|]. split; [|split]; cbn.
  - intros x Hx. apply elem_of_union. right. by apply H2.
  - intros p Hp%elem_of_delete_in. by apply H3.
  - intros c [->%elem_of_singleton|Hc]%elem_of_union; [|by apply H4].
    right. by apply (H3 _ Hin).
Qed.

Lemma handle_keeps_marks st ev :
  ScrollAnimations_marks st → ScrollAnimations_marks (handle st ev).
Proof.
  intros H. destruct ev as [entries|inViewport|k]; unfold handle;
    cbv beta iota.
  - destruct (mode st); try done. unfold callback.
    generalize (reported (targets st) entries) as es. intros es.
    revert st H. induction es as [|e es IH]; intros st H; cbn; [done|].
    by apply IH, onEntry_keeps_marks.
  - destruct (mode st); try done. unfold handleScroll.
    generalize (animatedElements st) as els. intros els.
    revert st H. induction els as [|el els IH]; intros st H; cbn; [done|].
    apply IH. destruct (inViewport el); [|done].
    by apply animateElement_keeps_marks.
  - destruct (mode st); by apply fire_keeps_marks.
Qed.

Lemma construct_marks elements children rm io inViewport :
  ScrollAnimations_marks (construct elements children rm io inViewport).
Proof.
  assert (ScrollAnimations_marks
            (mkState inactive elements children ∅ ∅ ∅ [] [])) as H0.
  { split; [done|]. split; [by intros e ?%elem_of_nil|].
    split; [by intros p ?%elem_of_nil|by intros c ?%elem_of_empty]. }
  unfold construct, init. destruct rm; [done|]. destruct io.
  - destruct H0 as (_ & H2 & H3 & H4). split; [|by split].
    cbn. apply union_empty_l_L.
  - unfold fallbackAnimation, handleScroll. cbn [animatedElements].
    set (st0 := mkState polling _ _ _ _ _ _ _).
    assert (ScrollAnimations_marks st0) as H by exact H0.
    clearbody st0. clear H0. revert st0 H.
    induction elements as [|el els IH]; intros st H; cbn; [done|].
    apply IH. destruct (inViewport el); [|done].
    by apply animateElement_keeps_marks.
Qed.

(** X13: in every state ScrollAnimations reaches (any strategy), the
    bookkeeping set [observedElements] equals the set of elements the
    observer still watches; every element [animateElement] was applied to
    carries the class [animated]; and the class is only on such elements and
    on their staggered children, each pending timer being for a staggered
    child of an animated element. *)
Theorem scroll_animation_marks_only_animated_elements
    elements children rm io inViewport evs :
  let st := run evs (construct elements children rm io inViewport) in
  observedElements st = targets st ∧
  (∀ e, e ∈ calls st → e ∈ animated st) ∧
  (∀ p, p ∈ timers st → ∃ e, e ∈ calls st ∧ p.2 ∈ staggered st e) ∧
  (∀ c, c ∈ animated st →
        c ∈ calls st ∨ ∃ e, e ∈ calls st ∧ c ∈ staggered st e).
Proof.
  intros st. subst st. unfold run.
  pose proof (construct_marks elements children rm io inViewport) as H0.
  revert H0. generalize (construct elements children rm io inViewport).
  induction evs as [|ev evs IH]; intros s H; cbn; [exact H|].
  by apply IH, handle_keeps_marks.
Qed.

End ScrollAnimations_marks_facts.

Section StatsCounter_edges.
Import StatsCounter.
Local Open Scope Z_scope.





End StatsCounter_edges.

Section ContactForm_more.
Import ContactForm.








(** What [validateField] computes depends on the control only through
    these attributes, which it leaves as they are. *)
Lemma validateField_again f :
  validateField (validateField f).2 = validateField f.
Proof.
  unfold validateField at 2 3.
  destruct (if required f && String.eqb (trim (value f)) ""
            then (false, "This field is required"%string)
            else _) as [ok msg] eqn:E.
  unfold validateField.
  cbn [tagName fieldType name required value defaultValue hasErrorElement
       errorText errorClass snd fst].
  rewrite E. by destruct (hasErrorElement f).
Qed.

(** X16: [validateField] keeps the control's markers in step with its
    verdict: the [error] class is set exactly when the verdict is negative
    and the error text (when the control has an error element) is empty
    exactly when it is positive; it never changes the value; validating
    again gives the same verdict and the same control; and a control that is
    not required and blank after trimming is always valid, whatever its type
    and name. *)
Theorem validate_field_markers_follow_verdict f :
  errorClass (validateField f).2 = negb (validateField f).1 ∧
  (hasErrorElement f = true →
   (errorText (validateField f).2 = ""%string ↔ (validateField f).1 = true)) ∧
  value (validateField f).2 = value f ∧
  validateField (validateField f).2 = validateField f ∧
  (required f = false → trim (value f) = ""%string →
   (validateField f).1 = true).
Proof.
  split; [|split; [|split; [|split]]].
  - unfold validateField. by repeat case_match.
  - intros He. unfold validateField. rewrite He.
    repeat case_match; simplify_eq/=; split; done.
  - unfold validateField. by repeat case_match.
  - apply validateField_again.
  - intros Hr Hv. unfold validateField. rewrite Hr, Hv. done.
Qed.

Lemma validate_field_markers_follow_verdict_witness :
  let f := mkField input "email" "email" false "  " "" true "old" true in
  (validateField f).1 = true ∧
  errorText (validateField f).2 = ""%string.
Proof.
  intros f.
  destruct (validate_field_markers_follow_verdict f) as (_ & H2 & _ & _ & H5).
  pose proof (H5 eq_refl eq_refl) as Hv.
  split; [exact Hv|]. by apply (H2 eq_refl).
Defined.




(** X18: however the simulated submission ends, [settle] leaves the
    loading state cleared and the button enabled and adds exactly one
    message; on success every control is back at its default value with no
    [error] class and an empty error text; on failure every control is
    exactly as it was, so the same input can be submitted again. *)
Theorem settle_always_clears_loading success fm :
  loading (settle success fm) = false ∧
  submitDisabled (settle success fm) = false ∧
  length (notifications (settle success fm)) = S (length (notifications fm)) ∧
  (success = true →
   length (fields (settle success fm)) = length (fields fm) ∧
   ∀ f, f ∈ fields (settle success fm) →
        value f = defaultValue f ∧ errorClass f = false ∧
        (hasErrorElement f = true → errorText f = ""%string)) ∧
  (success = false → fields (settle success fm) = fields fm).
Proof.
  destruct success; cbn.
  - split; [done|]. split; [done|]. split.
    { rewrite length_app. cbn. lia. }
    split; [|done]. intros _. split; [by rewrite !length_map|].
    intros f Hf.
    apply list_elem_of_fmap in Hf as (g & -> & Hg).
    apply list_elem_of_fmap in Hg as (h & -> & _). cbn.
    split; [done|]. split; [done|]. by intros ->.
  - split; [done|]. split; [done|]. split; [|done].
    rewrite length_app. cbn. lia.
Qed.

Lemma settle_always_clears_loading_witness :
  let fm := (handleSubmit
               (mkForm [mkField input "text" "name" true "Ada" "" true "" false]
                       false false [])).1 in
  loading fm = true ∧
  loading (settle true fm) = false ∧
  fields (settle false fm) = fields fm ∧
  (∀ f, f ∈ fields (settle true fm) → value f = defaultValue f).
Proof.
  intros fm.
  destruct (settle_always_clears_loading true fm) as (H1 & _ & _ & H4 & _).
  destruct (settle_always_clears_loading false fm) as (_ & _ & _ & _ & H5).
  split; [reflexivity|]. split; [exact H1|]. split; [by apply H5|].
  intros f Hf. destruct (H4 eq_refl) as [_ H]. by destruct (H f Hf).
Defined.

End ContactForm_more.

Section LazyLoader_more.
Import LazyLoader.

Lemma loadImage_falsy i imgs st im :
  LazyLoader_untouched i imgs st → imgs !! i = Some im →
  truthy (dataSrc im) = false → loadImage i st = st.
Proof.
  intros [Hi _] Him Hf. unfold loadImage. by rewrite Hi, Him, Hf.
Qed.

Lemma onEntry_untouched_falsy i imgs st im e :
  imgs !! i = Some im → truthy (dataSrc im) = false →
  LazyLoader_untouched i imgs st → LazyLoader_untouched i imgs (onEntry st e).
Proof.
  intros Him Hf H.
  destruct (decide (e.1 = i ∧ e.2 = true)) as [[He1 He2]|Hne].
  - unfold onEntry. rewrite He2, He1.
    rewrite (loadImage_falsy i imgs st im H Him Hf).
    by destruct H.
  - by apply onEntry_untouched.
Qed.

Lemma handle_untouched_falsy i imgs st im ev :
  imgs !! i = Some im → truthy (dataSrc im) = false →
  LazyLoader_untouched i imgs st → LazyLoader_untouched i imgs (handle st ev).
Proof.
  intros Him Hf H. destruct ev as [entries|k|k]; cbn.
  - destruct (mode st); try done. unfold callback.
    generalize (reported (targets st) entries) as es. intros es.
    revert st H. induction es as [|e es IH]; intros st H; cbn; [done|].
    by eapply IH, onEntry_untouched_falsy.
  - by apply settle_untouched.
  - by apply settle_untouched.
Qed.

Lemma fallback_untouched_falsy i imgs im (sel : list nat) st :
  imgs !! i = Some im → truthy (dataSrc im) = false →
  LazyLoader_untouched i imgs st →
  LazyLoader_untouched i imgs (foldl (λ st img, loadImage img st) st sel).
Proof.
  intros Him Hf. revert st.
  induction sel as [|x sel IH]; intros st H; cbn; [done|].
  apply IH. destruct (decide (x = i)) as [->|Hne].
  - by rewrite (loadImage_falsy i imgs st im).
  - destruct H as [Hi Hfl]. destruct (loadImage_frame x st) as (_ & Him' & _).
    split; [by rewrite Him'|].
    intros p [Hp|Hp]%loadImage_inflight; [by apply Hfl|congruence].
Qed.

Lemma construct_untouched_falsy i imgs im io :
  imgs !! i = Some im → truthy (dataSrc im) = false →
  LazyLoader_untouched i imgs (construct imgs io).
Proof.
  intros Him Hf. unfold construct, init. cbn [selected].
  destruct (withDataSrc imgs) as [|j l].
  - split; [done|]. by intros p ?%elem_of_nil.
  - destruct io.
    + split; [done|]. by intros p ?%elem_of_nil.
    + unfold fallbackLoading. cbn [selected].
      apply (fallback_untouched_falsy i imgs im); [done|done|].
      split; [done|]. by intros p ?%elem_of_nil.
Qed.

(** X19: an image whose [data-src] is missing or empty is never touched
    by the loader, on either strategy and whatever is reported about it: it
    stays exactly as the document had it and no preload of it is ever
    started. *)
Theorem image_without_source_marker_is_never_touched imgs io evs i im :
  imgs !! i = Some im →
  truthy (dataSrc im) = false →
  images (run evs (construct imgs io)) !! i = Some im ∧
  ∀ p, p ∈ inflight (run evs (construct imgs io)) → p.1 ≠ i.
Proof.
  intros Him Hf.
  assert (LazyLoader_untouched i imgs (run evs (construct imgs io))) as [H1 H2].
  { unfold run.
    pose proof (construct_untouched_falsy i imgs im io Him Hf) as H0.
    revert H0. generalize (construct imgs io).
    induction evs as [|ev evs IH]; intros st H; cbn; [done|].
    by eapply IH, handle_untouched_falsy. }
  split; [by rewrite H1|exact H2].
Qed.

Lemma image_without_source_marker_is_never_touched_witness :
  images (run [Intersections [(0, true); (1, true)]; Loaded 0]
              (construct [mkImage (Some "") None false false;
                          mkImage (Some "b.jpg") None false false] true))
  !! 0 = Some (mkImage (Some "") None false false).
Proof.
  apply (image_without_source_marker_is_never_touched
           [mkImage (Some "") None false false;
            mkImage (Some "b.jpg") None false false] true
           [Intersections [(0, true); (1, true)]; Loaded 0] 0
           (mkImage (Some "") None false false) eq_refl eq_refl).
Defined.

Lemma faithful_refl im : LazyLoader_faithful im im.
Proof. by left. Qed.

Lemma loadImage_sound imgs i st :
  LazyLoader_sound imgs st → LazyLoader_sound imgs (loadImage i st).
Proof.
  intros (Hlen & Hf & Hin). unfold loadImage.
  destruct (images st !! i) as [im|] eqn:E; [|done].
  destruct (truthy (dataSrc im)) eqn:Ht; [|done].
  split; [done|]. split; [done|]. cbn.
  intros p [Hp| ->%list_elem_of_singleton]%elem_of_app; [by apply Hin|].
  cbn. assert (is_Some (imgs !! i)) as [im0 Him0].
  { apply lookup_lt_is_Some. rewrite <- Hlen. by eapply lookup_lt_Some. }
  exists im0. split; [done|].
  destruct (Hf i im0 im Him0 E) as [(Hd & _)|(Hd & _)].
  - rewrite <- Hd. destruct (dataSrc im) as [u|]; [|done]. cbn in *.
    split; [done|]. intros ->. done.
  - by rewrite Hd in Ht.
Qed.

Lemma onEntry_sound imgs st e :
  LazyLoader_sound imgs st → LazyLoader_sound imgs (onEntry st e).
Proof.
  intros H. unfold onEntry. destruct e.2; [|done].
  by destruct (loadImage_sound imgs e.1 st H) as (? & ? & ?).
Qed.

Lemma handle_sound imgs st ev :
  LazyLoader_sound imgs st → LazyLoader_sound imgs (handle st ev).
Proof.
  intros H. destruct ev as [entries|k|k]; cbn.
  - destruct (mode st); try done. unfold callback.
    generalize (reported (targets st) entries) as es. intros es.
    revert st H. induction es as [|e es IH]; intros st H; cbn; [done|].
    by apply IH, onEntry_sound.
  - destruct H as (Hlen & Hf & Hin). unfold onload.
    destruct (inflight st !! k) as [[img url]|] eqn:E; [|done].
    destruct (Hin (img, url)) as (im0 & Him0 & Hd & Hne);
      [by eapply list_elem_of_lookup_2|]. cbn in Him0, Hd, Hne.
    split; [by cbn; rewrite length_alter|]. split; cbn.
    + intros i j0 im Hj0 Him. destruct (decide (img = i)) as [->|Hneq].
      * rewrite list_lookup_alter_eq in Him.
        destruct (images st !! i) as [old|]; [|done].
        injection Him as <-. right. cbn. simplify_eq.
        rewrite Hd. cbn. split; [done|]. split; [done|]. split; [done|].
        by rewrite (proj2 (String.eqb_neq _ _) Hne).
      * rewrite list_lookup_alter_ne in Him by done. by eapply Hf.
    + intros p Hp%elem_of_delete_in. by apply Hin.
  - destruct H as (Hlen & Hf & Hin). unfold onerror.
    destruct (inflight st !! k) as [[img url]|] eqn:E; [|done].
    split; [by cbn; rewrite length_alter|]. split; cbn.
    + intros i j0 im Hj0 Him. destruct (decide (img = i)) as [->|Hneq].
      * rewrite list_lookup_alter_eq in Him.
        destruct (images st !! i) as [old|] eqn:Eo; [|done].
        injection Him as <-. by apply (Hf i j0 old).
      * rewrite list_lookup_alter_ne in Him by done. by eapply Hf.
    + intros p Hp%elem_of_delete_in. by apply Hin.
Qed.

Lemma construct_sound imgs io : LazyLoader_sound imgs (construct imgs io).
Proof.
  assert (∀ sel, LazyLoader_sound imgs (mkState inactive imgs sel ∅ [] []))
    as H0.
  { intros sel. split; [done|]. split; [|by intros p ?%elem_of_nil].
    intros i im0 im H1 H2. cbn in H2. simplify_eq. apply faithful_refl. }
  unfold construct, init. cbn [selected].
  destruct (withDataSrc imgs) as [|j l]; [apply H0|].
  destruct io.
  - destruct (H0 (j :: l)) as (? & ? & ?). by split.
  - unfold fallbackLoading. cbn [selected].
    generalize (H0 (j :: l)). generalize (mkState inactive imgs (j :: l) ∅ [] []).
    generalize (j :: l) as sel. intros sel.
    induction sel as [|x sel IH]; intros st H; cbn; [done|].
    by apply IH, loadImage_sound.
Qed.

(** X20: whatever happens, each image of the document is either as it was
    (same [data-src], same source, same [loaded] class; only the [error]
    class may have been added) or has been loaded: its source is the value
    its [data-src] attribute had, the attribute is removed and the class
    [loaded] is set.  The loader never assigns any other source, and it
    neither adds nor removes images. *)
Theorem assigned_source_is_the_data_src imgs io evs :
  let st := run evs (construct imgs io) in
  length (images st) = length imgs ∧
  ∀ i im0 im, imgs !! i = Some im0 → images st !! i = Some im →
    (dataSrc im = dataSrc im0 ∧ src im = src im0 ∧ loaded im = loaded im0) ∨
    (dataSrc im = None ∧ src im = dataSrc im0 ∧ loaded im = true ∧
     truthy (dataSrc im0) = true).
Proof.
  intros st.
  assert (LazyLoader_sound imgs st) as (H1 & H2 & _).
  { subst st. unfold run. pose proof (construct_sound imgs io) as H0.
    revert H0. generalize (construct imgs io).
    induction evs as [|ev evs IH]; intros s H; cbn; [done|].
    by apply IH, handle_sound. }
  split; [exact H1|exact H2].
Qed.

Lemma assigned_source_is_the_data_src_witness :
  let imgs := [mkImage (Some "a.jpg") (Some "placeholder.gif") false false] in
  images (run [Loaded 0] (construct imgs false)) !! 0
  = Some (mkImage None (Some "a.jpg") true false).
Proof.
  intros imgs.
  destruct (assigned_source_is_the_data_src imgs false [Loaded 0]) as [_ H].
  destruct (H 0 (mkImage (Some "a.jpg") (Some "placeholder.gif") false false)
              (mkImage None (Some "a.jpg") true false) eq_refl eq_refl)
    as [(Hd & _)|_]; [discriminate Hd|reflexivity].
Defined.

End LazyLoader_more.

Section PortfolioApp_facts.
Import PortfolioApp.













End PortfolioApp_facts.

Section Viewport_facts.
Import Viewport.

Lemma Qle_bool_inject a b :
  QArith_base.Qle_bool (QArith_base.inject_Z a) (QArith_base.inject_Z b)
  = (a <=? b)%Z.
Proof.
  apply eq_true_iff_eq.
  by rewrite QArith_base.Qle_bool_iff, Z.leb_le, QArith_base.Zle_Qle.
Qed.

(** X22: [isInViewport] is monotone in its offset: an element that counts
    as in the viewport with an offset also does with every smaller offset.
    An element that is not rendered (all four sides 0) never counts as in
    the viewport with a positive offset, as the polling fallbacks use it
    (offset 50), but does with offset 0 whenever the window's sizes are
    non-negative. *)
Theorem in_viewport_shrinks_with_offset w r :
  (∀ o1 o2, (o1 ≤ o2)%Z →
     isInViewport w r o2 = true → isInViewport w r o1 = true) ∧
  (∀ o, (0 < o)%Z → isInViewport w emptyRect o = false) ∧
  ((0 ≤ orNumber (innerHeight w) (clientHeight w))%Z →
   (0 ≤ orNumber (innerWidth w) (clientWidth w))%Z →
   isInViewport w emptyRect 0 = true).
Proof.
  split; [|split].
  - intros o1 o2 Ho. unfold isInViewport.
    rewrite !andb_true_iff, !QArith_base.Qle_bool_iff.
    intros [[[H1 H2] H3] H4]. repeat split; try done.
    + eapply QArith_base.Qle_trans; [exact H1|].
      rewrite <- QArith_base.Zle_Qle. lia.
    + eapply QArith_base.Qle_trans; [|exact H2].
      by rewrite <- QArith_base.Zle_Qle.
  - intros o Ho. unfold isInViewport, emptyRect. cbn [top bottom left right].
    rewrite !Qle_bool_inject.
    destruct (Z.leb_spec o 0); [lia|]. by rewrite andb_false_r.
  - intros Hh Hw. unfold isInViewport, emptyRect. cbn [top bottom left right].
    rewrite !Qle_bool_inject.
    rewrite Z.sub_0_r.
    by rewrite (proj2 (Z.leb_le _ _) Hh), (proj2 (Z.leb_le _ _) Hw).
Qed.

Lemma in_viewport_shrinks_with_offset_witness :
  let w := mkWindow 800 0 1200 0 in
  let r := mkRect (QArith_base.Qmake 1401 2) (QArith_base.Qmake 1801 2)
                  (QArith_base.inject_Z 10) (QArith_base.inject_Z 300) in
  isInViewport w r 50 = true ∧ isInViewport w r 0 = true ∧
  isInViewport w emptyRect 50 = false.
Proof.
  intros w r.
  destruct (in_viewport_shrinks_with_offset w r) as (H1 & _ & _).
  destruct (in_viewport_shrinks_with_offset w r) as (_ & H2 & _).
  split; [reflexivity|]. split.
  - apply (H1 0%Z 50%Z); [lia|reflexivity].
  - apply H2. lia.
Defined.

End Viewport_facts.

Section Resize_facts.
Import NavigationManager.

(** X23: [getViewportSize] is "mobile" up to 480 pixels, "tablet" up to
    768, "desktop" up to 1024 and "large" above; so after the resize handler
    has run the menu is open exactly when it was open and the window is at
    most 480 pixels wide: at every larger width an open menu is closed, and
    at mobile widths the handler leaves the state as it is. *)
Theorem resize_keeps_menu_only_at_mobile_width st width :
  (Utils.getViewportSize width = Utils.mobile ↔ (width ≤ 480)%Z) ∧
  (Utils.getViewportSize width = Utils.tablet ↔ (480 < width ≤ 768)%Z) ∧
  (Utils.getViewportSize width = Utils.desktop ↔ (768 < width ≤ 1024)%Z) ∧
  (Utils.getViewportSize width = Utils.large ↔ (1024 < width)%Z) ∧
  isMenuOpen (handleResize width st)
    = isMenuOpen st && (width <=? 480)%Z ∧
  ((width ≤ 480)%Z → handleResize width st = st).
Proof.
  unfold handleResize, Utils.getViewportSize, CONFIG.BREAKPOINTS_mobile,
    CONFIG.BREAKPOINTS_tablet, CONFIG.BREAKPOINTS_desktop.
  destruct (Z.leb_spec width 480); [|destruct (Z.leb_spec width 768);
    [|destruct (Z.leb_spec width 1024)]]; cbn;
    (repeat split; try (intros; lia); try done);
    rewrite ?andb_true_r, ?andb_false_r;
    destruct (isMenuOpen st) eqn:E; cbn; rewrite ?closeMobileMenu_closed;
    done.
Qed.

Lemma resize_keeps_menu_only_at_mobile_width_witness :
  handleResize 400 (toggleMobileMenu (construct true))
  = toggleMobileMenu (construct true).
Proof.
  destruct (resize_keeps_menu_only_at_mobile_width
              (toggleMobileMenu (construct true)) 400)
    as (_ & _ & _ & _ & _ & H).
  apply H. lia.
Defined.

End Resize_facts.
